(** * Contact manager: records, field validation, birthday scheduling

    A shallow embedding of [main.py]: the field classes [Phone] and
    [Birthday], the methods of [Record], the dictionary behind
    [AddressBook] and the three static methods of [BirthdayManager],
    together with the parts of Python's [str] and [datetime] they call. *)

From Stdlib Require Import ZArith Lia Bool String Ascii.
From stdpp Require Import base numbers option list.

Local Open Scope Z_scope.

(** ** Python values *)

(** A [str] is a sequence of Unicode code points. *)
Abbreviation str := (list Z) (only parsing).

(** An ASCII literal as a [str]. *)
Definition lit (s : string) : str :=
  map (fun a => Z.of_N (N_of_ascii a)) (list_ascii_of_string s).

(** The exceptions that the modelled code can raise. [CheckPhoneNumber] is
    the class declared in [main.py]; the other two are built in. Each
    carries its message, which is what [str(e)] returns. *)
Inductive exn : Type :=
  | CheckPhoneNumber (msg : str)
  | ValueError (msg : str)
  | OverflowError (msg : str).

(** The outcome of evaluating an expression: a value or a raised exception. *)
Inductive result (A : Type) : Type :=
  | Return (a : A)
  | Raise (e : exn).
Arguments Return {A} a.
Arguments Raise {A} e.

(** Sequencing stops at the first exception, as Python's control flow
    does; [x ← r; k] is stdpp's notation for it. *)
#[global] Instance result_ret : MRet result := fun A a => Return a.
#[global] Instance result_bind : MBind result := fun A B k r =>
  match r with
  | Return a => k a
  | Raise e => Raise e
  end.

(** ** [str.isdigit], [len] and decimal text *)

Definition in_ranges (c : Z) (tbl : list (Z * Z)) : bool :=
  existsb (fun r => (fst r <=? c) && (c <=? snd r)) tbl.

(** Code points whose Unicode Numeric_Type is Decimal (general category Nd),
    as inclusive ranges (Unicode 14, the database of CPython 3.11). These are
    the characters that [\d] matches in a [str] pattern, that [int] converts,
    and for which [str.isdecimal] holds. Every range is a run of the digits
    zero to nine, repeated five times in the mathematical block. *)
Definition decimal_ranges : list (Z * Z) :=
  [ (48, 57); (1632, 1641); (1776, 1785); (1984, 1993); (2406, 2415);
    (2534, 2543); (2662, 2671); (2790, 2799); (2918, 2927); (3046, 3055);
    (3174, 3183); (3302, 3311); (3430, 3439); (3558, 3567); (3664, 3673);
    (3792, 3801); (3872, 3881); (4160, 4169); (4240, 4249); (6112, 6121);
    (6160, 6169); (6470, 6479); (6608, 6617); (6784, 6793); (6800, 6809);
    (6992, 7001); (7088, 7097); (7232, 7241); (7248, 7257); (42528, 42537);
    (43216, 43225); (43264, 43273); (43472, 43481); (43504, 43513);
    (43600, 43609); (44016, 44025); (65296, 65305); (66720, 66729);
    (68912, 68921); (69734, 69743); (69872, 69881); (69942, 69951);
    (70096, 70105); (70384, 70393); (70736, 70745); (70864, 70873);
    (71248, 71257); (71360, 71369); (71472, 71481); (71904, 71913);
    (72016, 72025); (72784, 72793); (73040, 73049); (73120, 73129);
    (92768, 92777); (92864, 92873); (93008, 93017); (120782, 120831);
    (123200, 123209); (123632, 123641); (125264, 125273); (130032, 130041) ].

(** Code points whose Numeric_Type is Digit but not Decimal: superscripts and
    subscripts, circled and parenthesised digits, and a few script-specific
    digits. *)
Definition other_digit_ranges : list (Z * Z) :=
  [ (178, 179); (185, 185); (4969, 4977); (6618, 6618); (8304, 8304);
    (8308, 8313); (8320, 8329); (9312, 9320); (9332, 9340); (9352, 9360);
    (9450, 9450); (9461, 9469); (9471, 9471); (10102, 10110);
    (10112, 10120); (10122, 10130); (68160, 68163); (69216, 69224);
    (69714, 69722); (127232, 127242) ].

Definition is_decimal_char (c : Z) : bool := in_ranges c decimal_ranges.

(** A character counts as a digit for [str.isdigit] when its Numeric_Type is
    Digit or Decimal. *)
Definition is_digit_char (c : Z) : bool :=
  is_decimal_char c || in_ranges c other_digit_ranges.

(** [s.isdigit()]: every character is a digit and there is at least one. *)
Definition isdigit (s : str) : bool :=
  match s with
  | [] => false
  | _ :: _ => forallb is_digit_char s
  end.

(** [len(s)]. *)
Definition len {A} (s : list A) : Z := Z.of_nat (length s).

(** The characters [0] to [9]. *)
Definition is_ascii_digit (c : Z) : bool := (48 <=? c) && (c <=? 57).

Definition digit_char (n : Z) : Z := 48 + n.

(** Decimal text of a natural number, without padding. The recursion is
    on a bound for the number of digits; a number has no more decimal digits
    than binary ones. *)
Fixpoint decimal_digits (bound : nat) (n : Z) (acc : str) : str :=
  match bound with
  | O => acc
  | S bound' =>
      let acc' := digit_char (n mod 10) :: acc in
      if n / 10 =? 0 then acc' else decimal_digits bound' (n / 10) acc'
  end.

Definition decimal (n : Z) : str :=
  decimal_digits (S (Z.to_nat (Z.log2 n))) n [].

(** Left padding with [0] up to a width, as [%02d] does. *)
Definition zfill (width : nat) (s : str) : str :=
  repeat (digit_char 0) (width - length s) ++ s.

(** ** Fields *)

(** [Phone.__init__]: the digit test comes first, then the length test; on
    success the field holds the text unchanged. *)
Definition Phone (value : str) : result str :=
  if negb (isdigit value) then
    Raise (CheckPhoneNumber (lit "Phone " ++ value ++ lit " is not digit"))
  else if negb (len value =? 10) then
    Raise (CheckPhoneNumber (lit "Phone " ++ value ++ lit " > 10 digits"))
  else Return value.

(** ** [datetime] *)

(** A naive [datetime.datetime]: a proleptic Gregorian date and a time of
    day. *)
Record datetime : Type := mk_datetime {
  year : Z; month : Z; day : Z;
  hour : Z; minute : Z; second : Z; microsecond : Z
}.

Definition with_date (dt : datetime) (y m d : Z) : datetime :=
  mk_datetime y m d (hour dt) (minute dt) (second dt) (microsecond dt).

Definition MINYEAR : Z := 1.
Definition MAXYEAR : Z := 9999.
(** [date(9999, 12, 31).toordinal()]. *)
Definition MAXORDINAL : Z := 3652059.

Definition is_leap (y : Z) : bool :=
  (y mod 4 =? 0) && (negb (y mod 100 =? 0) || (y mod 400 =? 0)).

Definition days_in_month_in (leap : bool) (m : Z) : Z :=
  if m =? 2 then (if leap then 29 else 28)
  else if (m =? 4) || (m =? 6) || (m =? 9) || (m =? 11) then 30
  else 31.

Definition days_in_month (y m : Z) : Z := days_in_month_in (is_leap y) m.

(** Days before the first of month [m] in a common year (index 0 unused). *)
Definition DAYS_BEFORE_MONTH : list Z :=
  [0; 0; 31; 59; 90; 120; 151; 181; 212; 243; 273; 304; 334].

Definition days_before_month_in (leap : bool) (m : Z) : Z :=
  nth (Z.to_nat m) DAYS_BEFORE_MONTH 0 + (if (2 <? m) && leap then 1 else 0).

Definition days_before_month (y m : Z) : Z :=
  days_before_month_in (is_leap y) m.

Definition days_before_year (y : Z) : Z :=
  let p := y - 1 in p * 365 + p / 4 - p / 100 + p / 400.

(** Ordinal of a date, 1 January of year 1 being day 1. *)
Definition ymd2ord (y m d : Z) : Z :=
  days_before_year y + days_before_month y m + d.

(** The inverse, by 400-, 100-, 4- and 1-year cycles and a month estimate
    that is corrected when it overshoots. *)
Definition ord2ymd (ordinal : Z) : Z * Z * Z :=
  let n := ordinal - 1 in
  let n400 := n / 146097 in
  let n := n mod 146097 in
  let n100 := n / 36524 in
  let n := n mod 36524 in
  let n4 := n / 1461 in
  let n := n mod 1461 in
  let n1 := n / 365 in
  let n := n mod 365 in
  let y := n400 * 400 + 1 + n100 * 100 + n4 * 4 + n1 in
  if (n1 =? 4) || (n100 =? 4) then (y - 1, 12, 31)
  else
    let leapyear := (n1 =? 3) && (negb (n4 =? 24) || (n100 =? 3)) in
    let m := (n + 50) / 32 in
    let preceding := days_before_month_in leapyear m in
    if n <? preceding then
      let m' := m - 1 in
      let preceding' := preceding - days_in_month y m' in
      (y, m', n - preceding' + 1)
    else (y, m, n - preceding + 1).

Definition valid_date (y m d : Z) : bool :=
  (MINYEAR <=? y) && (y <=? MAXYEAR) && (1 <=? m) && (m <=? 12) &&
  (1 <=? d) && (d <=? days_in_month y m).

Definition valid_time (dt : datetime) : bool :=
  (0 <=? hour dt) && (hour dt <? 24) && (0 <=? minute dt) && (minute dt <? 60) &&
  (0 <=? second dt) && (second dt <? 60) &&
  (0 <=? microsecond dt) && (microsecond dt <? 1000000).

(** The values that a [datetime] object can hold. *)
Definition valid_datetime (dt : datetime) : bool :=
  valid_date (year dt) (month dt) (day dt) && valid_time dt.

Definition toordinal (dt : datetime) : Z :=
  ymd2ord (year dt) (month dt) (day dt).

(** [dt.weekday()]: Monday is 0, Sunday is 6. *)
Definition weekday (dt : datetime) : Z := (toordinal dt + 6) mod 7.

Fixpoint lex_lt (a b : list Z) : bool :=
  match a, b with
  | x :: a', y :: b' => (x <? y) || ((x =? y) && lex_lt a' b')
  | _, _ => false
  end.

Definition fields (dt : datetime) : list Z :=
  [year dt; month dt; day dt; hour dt; minute dt; second dt; microsecond dt].

(** [a < b] on naive datetimes: field by field, the time of day included. *)
Definition datetime_lt (a b : datetime) : bool := lex_lt (fields a) (fields b).

(** [(a - b).days]: the difference is normalised so that seconds and
    microseconds are non-negative, which makes [days] the floor of the
    difference in days. *)
Definition sub_days (a b : datetime) : Z :=
  let d := toordinal a - toordinal b in
  let s := (hour a - hour b) * 3600 + (minute a - minute b) * 60
           + (second a - second b) in
  let us := microsecond a - microsecond b in
  let s := s + us / 1000000 in
  d + s / 86400.

Definition int_text (n : Z) : str :=
  if n <? 0 then lit "-" ++ decimal (- n) else decimal n.

(** [dt + timedelta(days=k)]. *)
Definition add_days (dt : datetime) (k : Z) : result datetime :=
  let n := toordinal dt + k in
  if (n <? 1) || (MAXORDINAL <? n) then
    Raise (OverflowError (lit "date value out of range"))
  else
    let '(y, m, d) := ord2ymd n in Return (with_date dt y m d).

(** [dt.replace(year=y)]: the constructor checks run on the new fields. *)
Definition replace_year (dt : datetime) (y : Z) : result datetime :=
  if (y <? MINYEAR) || (MAXYEAR <? y) then
    Raise (ValueError (lit "year " ++ int_text y ++ lit " is out of range"))
  else if days_in_month y (month dt) <? day dt then
    Raise (ValueError (lit "day is out of range for month"))
  else Return (with_date dt y (month dt) (day dt)).

(** How [strftime] renders [%Y]. CPython up to 3.12 leaves it to the C
    library, and glibc prints the year without padding
    ([datetime(999, 1, 2).strftime("%Y") == "999"] on Linux); Windows, macOS
    and CPython from 3.13 on pad it to four digits. *)
Inductive year_style : Type := YearUnpadded | YearZeroPadded.

Definition year_text (sty : year_style) (y : Z) : str :=
  match sty with
  | YearUnpadded => decimal y
  | YearZeroPadded => zfill 4 (decimal y)
  end.

(** [dt.strftime("%d.%m.%Y")]. *)
Definition strftime_dmY (sty : year_style) (dt : datetime) : str :=
  zfill 2 (decimal (day dt)) ++ lit "." ++ zfill 2 (decimal (month dt))
  ++ lit "." ++ year_text sty (year dt).

(** *** [datetime.strptime(value, "%d.%m.%Y")] *)

(** The format compiles to the pattern
    [(?P<d>3[0-1]|[1-2]\d|0[1-9]|[1-9]| [1-9])\.(?P<m>1[0-2]|0[1-9]|[1-9])\.(?P<Y>\d\d\d\d)].
    Each group below lists its matches at the head of the input in the order
    in which the backtracking matcher tries them, as pairs of matched text
    and remaining input. *)
Definition in_1_9 (c : Z) : bool := (49 <=? c) && (c <=? 57).

Definition two_chars (p1 p2 : Z -> bool) (s : str) : list (str * str) :=
  match s with
  | c1 :: c2 :: rest => if p1 c1 && p2 c2 then [([c1; c2], rest)] else []
  | _ => []
  end.

Definition one_char (p : Z -> bool) (s : str) : list (str * str) :=
  match s with
  | c :: rest => if p c then [([c], rest)] else []
  | [] => []
  end.

Definition group_d (s : str) : list (str * str) :=
  two_chars (Z.eqb 51) (fun c => (48 <=? c) && (c <=? 49)) s
  ++ two_chars (fun c => (49 <=? c) && (c <=? 50)) is_decimal_char s
  ++ two_chars (Z.eqb 48) in_1_9 s
  ++ one_char in_1_9 s
  ++ two_chars (Z.eqb 32) in_1_9 s.

Definition group_m (s : str) : list (str * str) :=
  two_chars (Z.eqb 49) (fun c => (48 <=? c) && (c <=? 50)) s
  ++ two_chars (Z.eqb 48) in_1_9 s
  ++ one_char in_1_9 s.

Definition group_Y (s : str) : list (str * str) :=
  match s with
  | c1 :: c2 :: c3 :: c4 :: rest =>
      if forallb is_decimal_char [c1; c2; c3; c4]
      then [([c1; c2; c3; c4], rest)] else []
  | _ => []
  end.

Definition dot (s : str) : list str :=
  match s with
  | 46 :: rest => [rest]
  | _ => []
  end.

(** All matches of the whole pattern at the start of [s], in the matcher's
    order: the three groups and the input left over. *)
Definition pattern_matches (s : str) : list (str * str * str * str) :=
  '(d, s1) ← group_d s;
  s2 ← dot s1;
  '(m, s3) ← group_m s2;
  s4 ← dot s3;
  '(y, rest) ← group_Y s4;
  [(d, m, y, rest)].

(** The value of a decimal digit: its offset in its run of ten. *)
Definition decimal_value (c : Z) : Z :=
  match find (fun r => (fst r <=? c) && (c <=? snd r)) decimal_ranges with
  | Some r => (c - fst r) mod 10
  | None => 0
  end.

(** [int(text)] on the text of a group: surrounding blanks are skipped. *)
Definition int_of (text : str) : Z :=
  fold_left (fun acc c => if c =? 32 then acc else acc * 10 + decimal_value c)
            text 0.

(** [strptime] takes the first match, requires it to cover the whole input
    and builds the date, the time of day being midnight. Every failure is
    a [ValueError], here [None]: its message is never seen, since the only
    caller replaces it. *)
Definition strptime_dmY (s : str) : option datetime :=
  match pattern_matches s with
  | (d, m, y, rest) :: _ =>
      match rest with
      | [] =>
          let '(yy, mm, dd) := (int_of y, int_of m, int_of d) in
          if valid_date yy mm dd then Some (mk_datetime yy mm dd 0 0 0 0)
          else None
      | _ :: _ => None
      end
  | [] => None
  end.

(** [Birthday.__init__]. *)
Definition Birthday (value : str) : result datetime :=
  match strptime_dmY value with
  | Some dt => Return dt
  | None => Raise (ValueError (lit "Invalid date format. Use DD.MM.YYYY"))
  end.

(** ** Records *)

(** [Phone] objects are mutated through references held in a record's list
    ([edit_phone] assigns to [phone.value]), so they have identities: the
    store holds the [value] attribute of every [Phone] object, indexed by the
    object's identity, and a record's list holds identities. *)
Abbreviation phone_id := nat (only parsing).
Abbreviation store := (list (list Z)) (only parsing).

Record Record_ : Type := mk_Record {
  name : str;
  phones : list phone_id;
  birthday : option datetime
}.

(** [Record.__init__]. *)
Definition new_Record (n : str) : Record_ := mk_Record n [] None.

(** The [value] attributes of the phones of a record, in list order. *)
Definition phone_values (self : Record_) (h : store) : list (option str) :=
  map (fun p => h !! p) (phones self).

(** The methods take the record and the store and give back the outcome
    with both as the call leaves them. *)

(** [add_phone]: the [Phone] is built first, so nothing is appended when its
    constructor raises. *)
Definition add_phone (self : Record_) (phone : str) (h : store)
  : result unit * Record_ * store :=
  match Phone phone with
  | Raise e => (Raise e, self, h)
  | Return v =>
      (Return tt,
       mk_Record (name self) (phones self ++ [length h]) (birthday self),
       h ++ [v])
  end.

(** [remove_phone]: the list is rebuilt from the phones whose value
    differs. *)
Definition remove_phone (self : Record_) (phone : str) (h : store)
  : Record_ :=
  mk_Record (name self)
            (filter (fun p => h !! p ≠ Some phone) (phones self))
            (birthday self).

Definition remove_all_phones (self : Record_) : Record_ :=
  mk_Record (name self) [] (birthday self).

(** The [for] loop of [edit_phone]: each phone of the list is read in the
    store as the earlier iterations left it. *)
Fixpoint edit_loop (ps : list phone_id) (old_phone new_value : str)
    (h : store) : store :=
  match ps with
  | [] => h
  | p :: ps' =>
      let h' := if decide (h !! p = Some old_phone)
                then <[p := new_value]> h else h in
      edit_loop ps' old_phone new_value h'
  end.

(** [edit_phone]: a [CheckPhoneNumber] from the constructor is caught and
    its message returned; otherwise the loop runs and the method returns
    [None]. The [Phone] built from [new_phone] is dropped when the method
    returns. *)
Definition edit_phone (self : Record_) (old_phone new_phone : str)
    (h : store) : result (option str) * Record_ * store :=
  match Phone new_phone with
  | Raise (CheckPhoneNumber msg) => (Return (Some msg), self, h)
  | Raise e => (Raise e, self, h)
  | Return v => (Return None, self, edit_loop (phones self) old_phone v h)
  end.

(** [find_phone]: the first phone of the list with that value. *)
Definition find_phone (self : Record_) (phone : str) (h : store)
  : option phone_id :=
  head (filter (fun p => h !! p = Some phone) (phones self)).

(** [add_birthday]. *)
Definition add_birthday (self : Record_) (birthday_date : str)
  : result unit * Record_ :=
  match Birthday birthday_date with
  | Raise e => (Raise e, self)
  | Return dt => (Return tt, mk_Record (name self) (phones self) (Some dt))
  end.

(** ** The address book *)

(** [AddressBook.data] is a [dict]: keys are unique and iteration follows
    insertion order, so it is a list of pairs. The book is passed to its
    methods and given back by them. *)
Abbreviation dict V := (list (list Z * V)) (only parsing).

Definition keys {V} (d : dict V) : list str := map fst d.

(** [d.get(k)]. *)
Fixpoint dict_get {V} (k : str) (d : dict V) : option V :=
  match d with
  | [] => None
  | (k', v) :: d' => if decide (k' = k) then Some v else dict_get k d'
  end.

(** [d[k] = v]: an existing key keeps its place and gets the new value, a
    new key goes to the end. *)
Fixpoint dict_set {V} (k : str) (v : V) (d : dict V) : dict V :=
  match d with
  | [] => [(k, v)]
  | (k', v') :: d' =>
      if decide (k' = k) then (k', v) :: d' else (k', v') :: dict_set k v d'
  end.

(** [del d[k]]. *)
Definition dict_del {V} (k : str) (d : dict V) : dict V :=
  filter (fun kv => kv.1 ≠ k) d.

Abbreviation AddressBook := (list (list Z * Record_)) (only parsing).

(** [AddressBook.add_record]. *)
Definition add_record (record : Record_) (book : AddressBook) : AddressBook :=
  dict_set (name record) record book.

(** [AddressBook.find]. *)
Definition find_record (n : str) (book : AddressBook) : option Record_ :=
  dict_get n book.

(** [AddressBook.delete]. *)
Definition delete (n : str) (book : AddressBook) : AddressBook :=
  if decide (n ∈ keys book) then dict_del n book else book.

(** ** [BirthdayManager] *)

Definition find_next_weekday (start_date : datetime) (wd : Z)
  : result datetime :=
  let days_ahead := wd - weekday start_date in
  let days_ahead := if days_ahead <=? 0 then days_ahead + 7 else days_ahead in
  add_days start_date days_ahead.

Definition adjust_for_weekend (b : datetime) : result datetime :=
  if 5 <=? weekday b then find_next_weekday b 0 else Return b.

(** An element of the list that [get_upcoming_birthdays] returns: a dict
    with the two keys [Contact] and [upcoming birthday]. *)
Record entry : Type := mk_entry {
  Contact : str;
  upcoming_birthday : str
}.

(** The body of the loop of [get_upcoming_birthdays] for one item of the
    book: the list with the entry it appends, if any. [today] is the value
    of [datetime.today()], which carries the time of day. *)
Definition upcoming_item (sty : year_style) (today : datetime) (days : Z)
    (item : str * Record_) : result (list entry) :=
  match birthday item.2 with
  | None => Return []
  | Some b =>
      this_year ← replace_year b (year today);
      birthday_this_year ←
        (if datetime_lt this_year today
         then replace_year b (year today + 1)
         else Return this_year);
      if (0 <=? sub_days birthday_this_year today)
         && (sub_days birthday_this_year today <=? days)
      then
        adjusted ← adjust_for_weekend birthday_this_year;
        Return [mk_entry item.1 (strftime_dmY sty adjusted)]
      else Return []
  end.

(** The loop over [address_book.data.items()], appending to the list built
    so far; an exception ends it. *)
Fixpoint upcoming_loop (sty : year_style) (today : datetime) (days : Z)
    (items : AddressBook) (upcoming_birthdays : list entry)
  : result (list entry) :=
  match items with
  | [] => Return upcoming_birthdays
  | item :: items' =>
      new ← upcoming_item sty today days item;
      upcoming_loop sty today days items' (upcoming_birthdays ++ new)
  end.

(** [get_upcoming_birthdays]; the [print] of the book at its start only
    writes to the terminal. *)
Definition get_upcoming_birthdays (sty : year_style) (today : datetime)
    (address_book : AddressBook) (days : Z) : result (list entry) :=
  upcoming_loop sty today days address_book [].

(** ** The command handlers *)

(** The handlers reach a record through the book and change it in place,
    so records have identities as well: the book maps a name to the identity
    of a [Record] object, and the objects are held apart. *)
Record World : Type := mk_World {
  record_objs : list Record_;
  phone_objs : list (list Z);
  book_data : list (list Z * nat)
}.

(** The identities in use denote objects, and the keys of the book are
    unique. *)
Definition wf_World (w : World) : Prop :=
  Forall (fun kr : list Z * nat => (kr.2 < length (record_objs w))%nat)
         (book_data w)
  /\ Forall (fun r => Forall (fun p => (p < length (phone_objs w))%nat)
                             (phones r))
            (record_objs w)
  /\ NoDup (keys (book_data w)).

(** The [Record] object with identity [r]. *)
Definition get_record (r : nat) (w : World) : Record_ :=
  default (new_Record []) (record_objs w !! r).

(** [record.m(...)]: the method runs on the object and the object keeps
    what the method leaves. *)
Definition call_method {A} (r : nat)
    (m : Record_ -> list (list Z) -> result A * Record_ * list (list Z))
    (w : World) : result A * World :=
  let '(res, self', h') := m (get_record r w) (phone_objs w) in
  (res, mk_World (<[r := self']> (record_objs w)) h' (book_data w)).

(** [record = Record(name); book.add_record(record)]. *)
Definition create_record (n : str) (w : World) : nat * World :=
  let r := length (record_objs w) in
  (r, mk_World (record_objs w ++ [new_Record n]) (phone_objs w)
               (dict_set n r (book_data w))).

(** [book.data.items()] with the records as they are now. *)
Definition book_items (w : World) : AddressBook :=
  map (fun kr : list Z * nat => (kr.1, get_record kr.2 w)) (book_data w).

(** [sep.join(l)]. *)
Fixpoint join (sep : str) (l : list str) : str :=
  match l with
  | [] => []
  | [x] => x
  | x :: l' => x ++ sep ++ join sep l'
  end.

(** [Record.__str__]. *)
Definition Record_str (sty : year_style) (self : Record_) (h : store) : str :=
  lit "Contact name: " ++ name self
  ++ lit ", phones: "
  ++ join (lit "; ") (map (fun p => default [] (h !! p)) (phones self))
  ++ lit ", birthday: "
  ++ match birthday self with
     | Some b => strftime_dmY sty b
     | None => lit "N/A"
     end.

(** The [ValueError] of an unpacking such as [name, phone, *_ = args] when
    [args] is too short. *)
Definition unpack_error (expected got : Z) : exn :=
  ValueError (lit "not enough values to unpack (expected at least "
              ++ decimal expected ++ lit ", got " ++ decimal got ++ lit ")").

(** The decorator [input_error]: a [ValueError] becomes a message; the
    handlers raise no [KeyError] or [IndexError], and any other exception
    goes through. What the handler did before raising stays done. *)
Definition input_error (func : World -> result (option (list Z)) * World)
    (w : World) : result (option (list Z)) * World :=
  match func w with
  | (Raise (ValueError _), w') => (Return (Some (lit "Incorrect value.")), w')
  | (res, w') => (res, w')
  end.

(** The handlers; each [_body] is the function that [input_error] wraps.
    A handler returns a message, or [None] as Python's [None]. *)
Module Handlers.

Definition add_contact_body (args : list (list Z)) (w : World)
  : result (option (list Z)) * World :=
  match args with
  | name :: phone :: _ =>
      let '(record, message, w1) :=
        match dict_get name (book_data w) with
        | Some r => (r, lit "Contact updated.", w)
        | None => let '(r, w') := create_record name w in
                  (r, lit "Contact added.", w')
        end in
      match phone with
      | [] => (Return (Some message), w1)
      | _ :: _ =>
          let '(res, w2) :=
            call_method record (fun self => add_phone self phone) w1 in
          (_ ← res; Return (Some message), w2)
      end
  | _ => (Raise (unpack_error 2 (len args)), w)
  end.

Definition add_contact (args : list (list Z)) : World -> _ :=
  input_error (add_contact_body args).

Definition change_contact_body (args : list (list Z)) (w : World)
  : result (option (list Z)) * World :=
  match args with
  | name :: phone :: _ =>
      match dict_get name (book_data w) with
      | None => (Return (Some (lit "Contact not found.")), w)
      | Some record =>
          let '(_, w1) :=
            call_method record
              (fun self h => (Return tt, remove_all_phones self, h)) w in
          let '(res, w2) :=
            call_method record (fun self => add_phone self phone) w1 in
          (_ ← res; Return (Some (lit "Contact changed.")), w2)
      end
  | _ => (Raise (unpack_error 2 (len args)), w)
  end.

Definition change_contact (args : list (list Z)) : World -> _ :=
  input_error (change_contact_body args).

Definition get_phone_body (sty : year_style) (args : list (list Z))
    (w : World) : result (option (list Z)) * World :=
  match args with
  | name :: _ =>
      match dict_get name (book_data w) with
      | None => (Return (Some (lit "Contact not found!")), w)
      | Some record =>
          (Return (Some (Record_str sty (get_record record w) (phone_objs w))),
           w)
      end
  | [] => (Raise (unpack_error 1 0), w)
  end.

Definition get_phone (sty : year_style) (args : list (list Z)) : World -> _ :=
  input_error (get_phone_body sty args).

Definition add_birthday_body (args : list (list Z)) (w : World)
  : result (option (list Z)) * World :=
  match args with
  | name :: birthday_date :: _ =>
      let '(record, message, w1) :=
        match dict_get name (book_data w) with
        | Some r => (r, lit "Contact birthday updated.", w)
        | None => let '(r, w') := create_record name w in
                  (r, lit "Contact added. Birthday updated.", w')
        end in
      match birthday_date with
      | [] => (Return (Some message), w1)
      | _ :: _ =>
          let '(res, w2) :=
            call_method record
              (fun self h =>
                 let '(res, self') := add_birthday self birthday_date in
                 (res, self', h)) w1 in
          (_ ← res; Return (Some message), w2)
      end
  | _ => (Raise (unpack_error 2 (len args)), w)
  end.

Definition add_birthday (args : list (list Z)) : World -> _ :=
  input_error (add_birthday_body args).

Definition show_birthday_body (sty : year_style) (args : list (list Z))
    (w : World) : result (option (list Z)) * World :=
  match args with
  | name :: _ =>
      match dict_get name (book_data w) with
      | None => (Return (Some (lit "Contact not found!")), w)
      | Some record =>
          match birthday (get_record record w) with
          | Some b => (Return (Some (strftime_dmY sty b)), w)
          | None => (Return None, w)
          end
      end
  | [] => (Raise (unpack_error 1 0), w)
  end.

Definition show_birthday (sty : year_style) (args : list (list Z))
  : World -> _ :=
  input_error (show_birthday_body sty args).

(** [birthdays]: not decorated; the window is the default of 7 days. *)
Definition birthdays (sty : year_style) (today : datetime) (w : World)
  : result (list entry) :=
  get_upcoming_birthdays sty today (book_items w) 7.

End Handlers.

(** ** The command loop *)

(** The characters that [str.split] and [str.strip] take for blanks: those
    for which [str.isspace] holds (Unicode 14), as inclusive ranges. *)
Definition whitespace_ranges : list (Z * Z) :=
  [ (9, 13); (28, 32); (133, 133); (160, 160); (5760, 5760); (8192, 8202);
    (8232, 8233); (8239, 8239); (8287, 8287); (12288, 12288) ].

Definition is_space (c : Z) : bool := in_ranges c whitespace_ranges.

(** [s.split()]: the maximal runs of non-blank characters; [word] is the run
    being read. *)
Fixpoint split_from (s : str) (word : str) : list str :=
  match s with
  | [] => match word with [] => [] | _ :: _ => [word] end
  | c :: s' =>
      if is_space c then
        match word with
        | [] => split_from s' []
        | _ :: _ => word :: split_from s' []
        end
      else split_from s' (word ++ [c])
  end.

Definition split (s : str) : list str := split_from s [].

Fixpoint lstrip (s : str) : str :=
  match s with
  | c :: s' => if is_space c then lstrip s' else s
  | [] => []
  end.

(** [s.strip()]. *)
Definition strip (s : str) : str := rev (lstrip (rev (lstrip s))).

Definition is_ascii (c : Z) : bool := (0 <=? c) && (c <? 128).

Definition ascii_lower (c : Z) : Z :=
  if (65 <=? c) && (c <=? 90) then c + 32 else c.

(** What the loop writes: [print] of a string ([None] is printed as the
    text [None]), [print(address_book)] at the start of
    [get_upcoming_birthdays] (the [repr] of the dict, with the addresses of
    the record objects), [print] of the list that it returns, and the
    prompt of [input]. *)
Inductive output : Type :=
  | Print (s : list Z)
  | PrintBook (items : list (list Z * Record_))
  | PrintEntries (l : list entry)
  | Prompt (s : list Z).

(** One turn of the loop: it goes on, it ends after saving the book, or an
    exception escapes. *)
Inductive step : Type :=
  | Continue (out : list output) (w : World)
  | Exit (out : list output) (saved : World)
  | Crash (out : list output) (e : exn) (w : World).

(** A run of the program on the lines it is given: stopped by [close] or
    [exit], ended by an exception, or waiting for the next line. *)
Inductive run : Type :=
  | Stopped (out : list output) (saved : World)
  | Crashed (out : list output) (e : exn)
  | Waiting (out : list output) (w : World).

Definition prepend (out : list output) (r : run) : run :=
  match r with
  | Stopped out' w => Stopped (out ++ out') w
  | Crashed out' e => Crashed (out ++ out') e
  | Waiting out' w => Waiting (out ++ out') w
  end.

(** [print(handler(args, book))]. *)
Definition print_result (r : result (option (list Z)) * World) : step :=
  match r with
  | (Return message, w') => Continue [Print (default (lit "None") message)] w'
  | (Raise e, w') => Crash [] e w'
  end.

Section Loop.

(** [str.lower] maps [A] to [Z] to [a] to [z] on text that is all ASCII. On
    other text it follows the Unicode case mappings, which are left
    open here. *)
Variable unicode_lower : list Z -> list Z.

Definition lower (s : str) : str :=
  if forallb is_ascii s then map ascii_lower s else unicode_lower s.

(** [parse_input]: the command word in lower case and the other words. *)
Definition parse_input (user_input : str) : result (list Z * list (list Z)) :=
  match split user_input with
  | cmd :: args => Return (lower (strip cmd), args)
  | [] => Raise (unpack_error 1 0)
  end.

(** The body of the [while] loop of [main] on one line; [today] is the time
    at which the line is handled. *)
Definition main_step (sty : year_style) (today : datetime) (w : World)
    (user_input : str) : step :=
  match parse_input user_input with
  | Raise e => Crash [] e w
  | Return (command, args) =>
      if decide (command ∈ [lit "close"; lit "exit"]) then
        Exit [Print (lit "Good bye!")] w
      else if decide (command = lit "hello") then
        Continue [Print (lit "How can I help you?")] w
      else if decide (command = lit "add") then
        print_result (Handlers.add_contact args w)
      else if decide (command = lit "change") then
        print_result (Handlers.change_contact args w)
      else if decide (command = lit "phone") then
        print_result (Handlers.get_phone sty args w)
      else if decide (command = lit "all") then
        Continue (map (fun item : list Z * Record_ =>
                         Print (Record_str sty item.2 (phone_objs w)))
                      (book_items w)) w
      else if decide (command = lit "add-birthday") then
        print_result (Handlers.add_birthday args w)
      else if decide (command = lit "show-birthday") then
        print_result (Handlers.show_birthday sty args w)
      else if decide (command = lit "birthdays") then
        match Handlers.birthdays sty today w with
        | Return l => Continue [PrintBook (book_items w); PrintEntries l] w
        | Raise e => Crash [PrintBook (book_items w)] e w
        end
      else Continue [Print (lit "Invalid command.")] w
  end.

(** The loop of [main] on the lines that [input] returns, each with the
    time at which it is handled. *)
Fixpoint main_loop (sty : year_style) (inputs : list (list Z * datetime))
    (w : World) : run :=
  match inputs with
  | [] => Waiting [Prompt (lit "Enter a command: ")] w
  | (user_input, today) :: inputs' =>
      match main_step sty today w user_input with
      | Continue out w' =>
          prepend (Prompt (lit "Enter a command: ") :: out)
                  (main_loop sty inputs' w')
      | Exit out w' => Stopped (Prompt (lit "Enter a command: ") :: out) w'
      | Crash out e _ => Crashed (Prompt (lit "Enter a command: ") :: out) e
      end
  end.

(** [main]; [loaded] is the book that [load_data] returns, the saved one
    or a new one. *)
Definition main (sty : year_style) (loaded : World)
    (inputs : list (list Z * datetime)) : run :=
  prepend [Print (lit "Welcome to the assistant bot!")]
          (main_loop sty inputs loaded).

End Loop.

(** A word: a non-empty text without blanks. *)
Definition is_word (t : str) : Prop :=
  t <> [] /\ Forall (fun c => is_space c = false) t.

(** No record is in the book under two names; the handlers keep it so. *)
Definition unshared (w : World) : Prop := NoDup (map snd (book_data w)).

(** What the book shows of a contact: the name of its record, the values
    of its phones and its birthday. *)
Definition contact (n : str) (w : World)
  : option (list Z * list (option (list Z)) * option datetime) :=
  match dict_get n (book_data w) with
  | Some r =>
      let self := get_record r w in
      Some (name self, phone_values self (phone_objs w), birthday self)
  | None => None
  end.

(** The book of a new address book. *)
Definition empty_World : World := mk_World [] [] [].

(** ** Statements of the specification *)

(** The two messages of [Phone.__init__]. *)
Definition digit_error (value : str) : exn :=
  CheckPhoneNumber (lit "Phone " ++ value ++ lit " is not digit").

Definition length_error (value : str) : exn :=
  CheckPhoneNumber (lit "Phone " ++ value ++ lit " > 10 digits").

Definition all_digits (s : str) : Prop :=
  Forall (fun c => is_digit_char c = true) s.

Definition some_non_digit (s : str) : Prop :=
  Exists (fun c => is_digit_char c = false) s.

(** Acceptance as the specification words it: ten characters, each one of
    the decimal digits [0] to [9]. *)
Definition ten_decimal_digits (s : str) : Prop :=
  length s = 10%nat /\ Forall (fun c => is_ascii_digit c = true) s.

(** The order of the two checks as the specification words it: the digit
    error exactly when some character is a non-digit, otherwise the length
    error exactly when the length is not ten. *)
Definition error_order_as_stated (s : str) : Prop :=
  (Phone s = Raise (digit_error s) <-> some_non_digit s)
  /\ (Phone s = Raise (length_error s) <->
      ~ some_non_digit s /\ length s <> 10%nat).

(** A text in the literal format DD.MM.YYYY, zero-padded, that denotes a
    date of the calendar (years 0001 to 9999): the eight digits and the
    date they spell. *)
Definition num2 (a b : Z) : Z := 10 * (a - 48) + (b - 48).
Definition num4 (a b c d : Z) : Z :=
  1000 * (a - 48) + 100 * (b - 48) + 10 * (c - 48) + (d - 48).

Definition is_dmY_text (s : str) : bool :=
  match s with
  | [d1; d2; p1; m1; m2; p2; y1; y2; y3; y4] =>
      forallb is_ascii_digit [d1; d2; m1; m2; y1; y2; y3; y4]
      && (p1 =? 46) && (p2 =? 46)
      && valid_date (num4 y1 y2 y3 y4) (num2 m1 m2) (num2 d1 d2)
  | _ => false
  end.

(** The year that such a text spells. *)
Definition dmY_year (s : str) : Z :=
  match s with
  | [_; _; _; _; _; _; y1; y2; y3; y4] => num4 y1 y2 y3 y4
  | _ => 0
  end.

(** The round trip through [Birthday] and [strftime]. *)
Definition round_trip (sty : year_style) (s : str) : Prop :=
  exists dt, Birthday s = Return dt /\ strftime_dmY sty dt = s.

(** The time of day of a [datetime], in microseconds since midnight. *)
Definition time_of_day (dt : datetime) : Z :=
  ((hour dt * 60 + minute dt) * 60 + second dt) * 1000000 + microsecond dt.

(** The month and day of the day numbered [n] (from 0) in a year, as the
    last step of [ord2ymd] finds them, and the check that they are right. *)
Definition month_day_in (leap : bool) (n : Z) : Z * Z :=
  let m := (n + 50) / 32 in
  let preceding := days_before_month_in leap m in
  if n <? preceding
  then (m - 1, n - (preceding - days_in_month_in leap (m - 1)) + 1)
  else (m, n - preceding + 1).

Definition month_day_ok (leap : bool) (n : Z) : bool :=
  let '(m, d) := month_day_in leap n in
  (1 <=? m) && (m <=? 12) && (1 <=? d) && (d <=? days_in_month_in leap m)
  && (days_before_month_in leap m + d =? n + 1).

(** The months of a year follow one another without gap or overlap. *)
Definition months_chain_ok (leap : bool) (m : Z) : bool :=
  (days_before_month_in leap (m + 1)
   =? days_before_month_in leap m + days_in_month_in leap m)
  && (28 <=? days_in_month_in leap m).

(** * Properties *)

(** ** Strings and phones *)

Example ex_phone_ok : Phone (lit "1234567890") = Return (lit "1234567890").
Proof. reflexivity. Qed.

Example ex_dates :
  Birthday (lit "1.1.2024") = Return (mk_datetime 2024 1 1 0 0 0 0)
  /\ weekday (mk_datetime 2024 6 15 0 0 0 0) = 5
  /\ ord2ymd (ymd2ord 2024 2 29) = (2024, 2, 29)
  /\ ymd2ord 9999 12 31 = MAXORDINAL
  /\ strftime_dmY YearZeroPadded (mk_datetime 999 1 2 0 0 0 0) = lit "02.01.0999".
Proof. vm_compute. repeat split. Qed.

Lemma isdigit_spec (s : str) : isdigit s = true <-> s <> [] /\ all_digits s.
Proof.
  unfold isdigit, all_digits. destruct s as [|c s].
  - split; [discriminate | intros [H _]; congruence].
  - rewrite forallb_forall, Forall_forall.
    split.
    + intros H. split; [discriminate|]. intros x Hx. apply H.
      now apply list_elem_of_In.
    + intros [_ H] x Hx. apply H. now apply list_elem_of_In.
Qed.

Lemma not_all_digits (s : str) : ~ all_digits s <-> some_non_digit s.
Proof.
  unfold all_digits, some_non_digit. induction s as [|c s IH].
  - split; [intros H; destruct H; constructor | intros H; inversion H].
  - rewrite Forall_cons, Exists_cons, <- IH.
    destruct (is_digit_char c); intuition congruence.
Qed.

Lemma messages_differ (s : str) : digit_error s <> length_error s.
Proof.
  unfold digit_error, length_error. intros H. injection H as H.
  repeat apply app_inv_head in H. discriminate H.
Qed.

(** Checking a boolean property on a whole interval by evaluation. *)
Lemma check_interval (P : Z -> bool) (lo : Z) (n : Z) :
  forallb P (seqZ lo n) = true -> forall z, lo <= z < lo + n -> P z = true.
Proof.
  intros H z Hz. rewrite forallb_forall in H. apply H.
  apply list_elem_of_In, elem_of_seqZ. lia.
Qed.

Lemma is_digit_char_ascii (c : Z) :
  0 <= c < 128 -> is_digit_char c = is_ascii_digit c.
Proof.
  intros Hc. apply Bool.eqb_prop.
  apply (check_interval (fun c => Bool.eqb (is_digit_char c) (is_ascii_digit c)) 0 128);
    [vm_compute; reflexivity | lia].
Qed.

Lemma ascii_digit_is_decimal (c : Z) :
  is_ascii_digit c = true -> is_decimal_char c = true.
Proof.
  unfold is_ascii_digit. intros H. apply andb_prop in H as [H1 H2].
  unfold is_decimal_char, in_ranges, decimal_ranges. cbn [existsb fst snd].
  now rewrite H1, H2.
Qed.

Lemma ascii_digit_is_digit (c : Z) :
  is_ascii_digit c = true -> is_digit_char c = true.
Proof.
  intros H. unfold is_digit_char. now rewrite ascii_digit_is_decimal.
Qed.

Lemma Phone_cases (s : str) :
  (isdigit s = false /\ Phone s = Raise (digit_error s))
  \/ (isdigit s = true /\ length s <> 10%nat /\ Phone s = Raise (length_error s))
  \/ (isdigit s = true /\ length s = 10%nat /\ Phone s = Return s).
Proof.
  unfold Phone, digit_error, length_error, len.
  destruct (isdigit s); cbn [negb]; [right | left; auto].
  destruct (Z.eqb_spec (Z.of_nat (length s)) 10) as [E|E]; cbn [negb].
  - right. repeat split; lia.
  - left. repeat split; lia.
Qed.

Lemma Phone_returns_iff (s : list Z) :
  Phone s = Return s <-> length s = 10%nat /\ all_digits s.
Proof.
  destruct (Phone_cases s) as [[Hd HP] | [(Hd & Hl & HP) | (Hd & Hl & HP)]];
    rewrite HP; split.
  - discriminate.
  - intros [Hl Ha]. assert (isdigit s = true) as E; [|congruence].
    apply isdigit_spec. split; [|exact Ha]. now destruct s.
  - discriminate.
  - intros [Hl' _]. contradiction.
  - intros _. split; [exact Hl|]. now apply isdigit_spec in Hd.
  - reflexivity.
Qed.

Lemma Phone_raises_CheckPhoneNumber (s : list Z) (e : exn) :
  Phone s = Raise e -> exists msg, e = CheckPhoneNumber msg.
Proof.
  destruct (Phone_cases s) as [[_ HP] | [(_ & _ & HP) | (_ & _ & HP)]];
    rewrite HP; intros [= <-]; eexists; reflexivity.
Qed.

(** C3, as the code has it: [Phone] accepts a string exactly when it has
    ten characters and each of them is a digit for [str.isdigit], that is, a
    character of Unicode numeric type Digit or Decimal; the accepted text is
    stored unchanged, and every other string is refused with
    [CheckPhoneNumber]. *)
Theorem Phone_accepts_iff (s : list Z) :
  (Phone s = Return s <-> length s = 10%nat /\ all_digits s)
  /\ (Phone s = Return s \/ exists msg, Phone s = Raise (CheckPhoneNumber msg)).
Proof.
  split; [apply Phone_returns_iff|].
  destruct (Phone_cases s) as [[_ HP] | [(_ & _ & HP) | (_ & _ & HP)]];
    rewrite HP; [right | right | left]; try reflexivity; eexists; reflexivity.
Qed.

(** On strings of ASCII characters the digits of [str.isdigit] are the
    characters [0] to [9], so there acceptance is as the specification
    words it. *)
Lemma Phone_accepts_ascii (s : list Z) :
  Forall (fun c => 0 <= c < 128) s ->
  (Phone s = Return s <-> ten_decimal_digits s).
Proof.
  intros Hs. rewrite Phone_returns_iff.
  unfold ten_decimal_digits, all_digits.
  assert (Forall (fun c => is_digit_char c = true) s
          <-> Forall (fun c => is_ascii_digit c = true) s) as ->; [|reflexivity].
  induction Hs as [|c s Hc Hs IH]; [split; constructor|].
  rewrite !Forall_cons, IH, (is_digit_char_ascii c Hc). reflexivity.
Qed.

(** Against C3 as stated: ten superscript twos (U+00B2) pass [isdigit] and
    have length ten, so
    [Phone] accepts them although none is a decimal digit: acceptance is not
    confined to the strings of ten decimal digits. *)
Lemma Phone_accepts_superscripts :
  ~ ((exists v, Phone (repeat 178 10) = Return v)
     <-> ten_decimal_digits (repeat 178 10)).
Proof.
  intros [H _].
  assert (ten_decimal_digits (repeat 178 10)) as [_ Hd].
  { apply H. eexists. vm_compute. reflexivity. }
  inversion Hd as [|? ? Hc _]. vm_compute in Hc. discriminate Hc.
Qed.

(** C4, as the code has it: the digit error is raised exactly when
    [isdigit] fails, that is, when the string is empty or has a character
    that is not a digit; otherwise the length error is raised exactly when
    the length is not ten. *)
Theorem Phone_error_order (s : str) :
  (Phone s = Raise (digit_error s) <-> s = [] \/ some_non_digit s)
  /\ (Phone s = Raise (length_error s) <->
      s <> [] /\ ~ some_non_digit s /\ length s <> 10%nat).
Proof.
  assert (isdigit s = false <-> s = [] \/ some_non_digit s) as Hf.
  { rewrite <- not_all_digits, <- not_true_iff_false, isdigit_spec.
    destruct s as [|c s]; [intuition congruence|].
    split; [intros H; right; intros Ha; apply H; split; [discriminate|exact Ha]|].
    intros [E|H] [_ Ha]; [discriminate | contradiction]. }
  assert (isdigit s = true <-> s <> [] /\ ~ some_non_digit s) as Ht.
  { rewrite <- not_false_iff_true, Hf. destruct s as [|c s]; [intuition congruence|].
    intuition discriminate. }
  pose proof (messages_differ s) as Hm.
  destruct (Phone_cases s) as [[Hd HP] | [(Hd & Hl & HP) | (Hd & Hl & HP)]];
    rewrite HP; split; split.
  - intros _. now apply Hf.
  - reflexivity.
  - intros H. exfalso. apply Hm. congruence.
  - intros (Hn & Hs & _). assert (isdigit s = true) by (apply Ht; auto). congruence.
  - intros H. exfalso. apply Hm. congruence.
  - intros H. apply Hf in H. congruence.
  - intros _. apply Ht in Hd as [? ?]. auto.
  - reflexivity.
  - discriminate.
  - intros H. apply Hf in H. congruence.
  - discriminate.
  - intros (_ & _ & H). contradiction.
Qed.

(** Against C4 as stated: the empty string has no non-digit character, yet
    it is refused with the digit error and not with the length error. *)
Lemma Phone_empty_digit_error : ~ error_order_as_stated [].
Proof.
  intros [[H _] _].
  assert (some_non_digit []) as Hs by (apply H; reflexivity).
  inversion Hs.
Qed.

(** ** Records *)

(** C10: when [Phone] refuses the text, [add_phone] raises that very
    exception and leaves the record (name, list of phones, birthday) and
    every [Phone] object as they were; nothing is appended. *)
Theorem add_phone_invalid (self : Record_) (phone : str) (h : store) (e : exn) :
  Phone phone = Raise e ->
  add_phone self phone h = (Raise e, self, h)
  /\ (let '(_, self', h') := add_phone self phone h in
      name self' = name self /\ phones self' = phones self
      /\ birthday self' = birthday self
      /\ phone_values self' h' = phone_values self h).
Proof.
  intros HP. unfold add_phone. rewrite HP. auto.
Qed.

Lemma add_phone_invalid_witness :
  let self := mk_Record (lit "Bob") [0%nat] None in
  let h := [lit "1234567890"] in
  add_phone self (lit "12345abcde") h
  = (Raise (digit_error (lit "12345abcde")), self, h).
Proof.
  intros self h.
  exact (proj1 (add_phone_invalid self (lit "12345abcde") h
                  (digit_error (lit "12345abcde")) eq_refl)).
Defined.

(** C6: when [Phone] refuses the new text, [edit_phone] does not raise: it
    returns the message of the exception as a string and leaves the record
    and every [Phone] object as they were. *)
Theorem edit_phone_invalid (self : Record_) (old_phone new_phone : str)
    (h : store) (e : exn) :
  Phone new_phone = Raise e ->
  exists msg, e = CheckPhoneNumber msg
    /\ edit_phone self old_phone new_phone h = (Return (Some msg), self, h).
Proof.
  intros HP. unfold edit_phone. rewrite HP.
  destruct (Phone_raises_CheckPhoneNumber new_phone e HP) as [msg ->].
  exists msg. auto.
Qed.

Lemma edit_phone_invalid_witness :
  let self := mk_Record (lit "Bob") [0%nat] None in
  let h := [lit "1234567890"] in
  exists msg, length_error (lit "12345") = CheckPhoneNumber msg
    /\ edit_phone self (lit "1234567890") (lit "12345") h
       = (Return (Some msg), self, h).
Proof.
  intros self h.
  exact (edit_phone_invalid self (lit "1234567890") (lit "12345") h
           (length_error (lit "12345")) eq_refl).
Defined.

(** What the loop of [edit_phone] leaves in the store, object by object,
    also when an object occurs more than once in the list. *)
Lemma edit_loop_lookup (ps : list phone_id) (old new : str) (h : store)
    (p : phone_id) :
  edit_loop ps old new h !! p
  = if decide (p ∈ ps /\ h !! p = Some old) then Some new else h !! p.
Proof.
  revert h. induction ps as [|p0 ps IH]; intros h; cbn [edit_loop].
  - rewrite decide_False; [reflexivity|]. intros [H _]. inversion H.
  - rewrite IH. clear IH.
    destruct (decide (h !! p0 = Some old)) as [E0|E0].
    + assert (p0 < length h)%nat as Hlt by (eapply lookup_lt_Some; eauto).
      destruct (decide (p = p0)) as [->|Hne].
      * rewrite list_lookup_insert_eq by exact Hlt.
        rewrite (decide_True (P := p0 ∈ p0 :: ps ∧ _)) by (split; [left|exact E0]).
        now case_decide.
      * rewrite list_lookup_insert_ne by congruence.
        pose proof (elem_of_cons ps p p0) as Hc.
        repeat destruct (decide _); try reflexivity; exfalso; tauto.
    + pose proof (elem_of_cons ps p p0) as Hc.
      repeat destruct (decide _); try reflexivity; exfalso;
        intuition congruence.
Qed.

Lemma edit_loop_length (ps : list phone_id) (old new : str) (h : store) :
  length (edit_loop ps old new h) = length h.
Proof.
  revert h. induction ps as [|p0 ps IH]; intros h; cbn [edit_loop]; [reflexivity|].
  rewrite IH. case_decide; [apply length_insert | reflexivity].
Qed.

(** C7: when [Phone] accepts the new text, [edit_phone] returns [None] and
    keeps the record's list of [Phone] objects as it is, the same objects at
    the same positions; each object of the list whose value was [old_phone]
    now holds the new text, every other object of the list, and every object
    outside it, keeps its value. *)
Theorem edit_phone_valid (self : Record_) (old_phone new_phone : str)
    (h : store) (v : str) :
  Phone new_phone = Return v ->
  exists h',
    edit_phone self old_phone new_phone h = (Return None, self, h')
    /\ length h' = length h
    /\ (forall p, p ∈ phones self ->
          h' !! p = if decide (h !! p = Some old_phone)
                    then Some new_phone else h !! p)
    /\ (forall p, p ∉ phones self -> h' !! p = h !! p)
    /\ phone_values self h'
       = map (fun x => if decide (x = Some old_phone)
                       then Some new_phone else x)
             (phone_values self h).
Proof.
  intros HP.
  assert (v = new_phone) as ->.
  { destruct (Phone_cases new_phone) as [[_ E] | [(_ & _ & E) | (_ & _ & E)]];
      congruence. }
  exists (edit_loop (phones self) old_phone new_phone h).
  unfold edit_phone. rewrite HP.
  assert (forall p, p ∈ phones self ->
            edit_loop (phones self) old_phone new_phone h !! p
            = if decide (h !! p = Some old_phone)
              then Some new_phone else h !! p) as Hin.
  { intros p Hp. rewrite edit_loop_lookup.
    repeat case_decide; try reflexivity; exfalso; tauto. }
  repeat split.
  - apply edit_loop_length.
  - exact Hin.
  - intros p Hp. rewrite edit_loop_lookup.
    rewrite decide_False; [reflexivity | tauto].
  - unfold phone_values. rewrite map_map. apply map_ext_in.
    intros p Hp. apply Hin. now apply list_elem_of_In.
Qed.

Lemma edit_phone_valid_witness :
  let self := mk_Record (lit "Bob") [0%nat; 1%nat; 2%nat] None in
  let h := [lit "1111111111"; lit "2222222222"; lit "1111111111"] in
  exists h',
    edit_phone self (lit "1111111111") (lit "3333333333") h
    = (Return None, self, h')
    /\ phone_values self h'
       = [Some (lit "3333333333"); Some (lit "2222222222");
          Some (lit "3333333333")].
Proof.
  intros self h.
  destruct (edit_phone_valid self (lit "1111111111") (lit "3333333333") h
              (lit "3333333333") eq_refl) as (h' & E & _ & _ & _ & Hv).
  exists h'. split; [exact E | exact Hv].
Defined.

(** ** The address book *)

Section Dict.
Context {V : Type}.
Implicit Types (d : dict V) (k : list Z) (v : V).

Lemma dict_get_set_eq d k v : dict_get k (dict_set k v d) = Some v.
Proof.
  induction d as [|[k' v'] d IH]; cbn.
  - now rewrite decide_True.
  - destruct (decide (k' = k)) as [E|E]; cbn; rewrite ?decide_True by exact E;
      [reflexivity|]. now rewrite decide_False.
Qed.

Lemma dict_get_set_ne d k k0 v :
  k0 <> k -> dict_get k0 (dict_set k v d) = dict_get k0 d.
Proof.
  intros Hne. induction d as [|[k' v'] d IH]; cbn.
  - now rewrite decide_False by congruence.
  - destruct (decide (k' = k)) as [E|E]; cbn.
    + subst k'. now rewrite !decide_False by congruence.
    + destruct (decide (k' = k0)); [reflexivity | exact IH].
Qed.

(** Assigning twice to a key is assigning the second value only. *)
Lemma dict_set_twice d k v1 v2 :
  dict_set k v2 (dict_set k v1 d) = dict_set k v2 d.
Proof.
  induction d as [|[k' v'] d IH]; cbn.
  - now rewrite decide_True.
  - destruct (decide (k' = k)) as [E|E]; cbn.
    + now rewrite decide_True by exact E.
    + rewrite decide_False by exact E. now rewrite IH.
Qed.

Lemma keys_dict_set d k v :
  keys (dict_set k v d) = if decide (k ∈ keys d) then keys d else keys d ++ [k].
Proof.
  unfold keys. induction d as [|[k' v'] d IH]; cbn.
  - rewrite decide_False; [reflexivity | apply not_elem_of_nil].
  - destruct (decide (k' = k)) as [E|E]; cbn.
    + subst k'. rewrite decide_True; [reflexivity | left].
    + rewrite IH. destruct (decide (k ∈ map fst d)) as [Hin|Hin].
      * rewrite decide_True; [reflexivity | now right].
      * rewrite decide_False; [reflexivity|].
        intros H. apply elem_of_cons in H as [H|H]; congruence.
Qed.

(** Assignment keeps the keys of a dict unique. *)
Lemma dict_set_NoDup d k v : NoDup (keys d) -> NoDup (keys (dict_set k v d)).
Proof.
  intros Hd. rewrite keys_dict_set. destruct (decide (k ∈ keys d)); [exact Hd|].
  apply NoDup_app. repeat split; [exact Hd | | apply NoDup_singleton].
  intros x Hx Hk. apply list_elem_of_singleton in Hk. congruence.
Qed.

Lemma filter_absent_key d k :
  k ∉ keys d -> filter (fun kv : list Z * V => kv.1 = k) d = [].
Proof.
  unfold keys. induction d as [|[k' v'] d IH]; intros Hk; [reflexivity|].
  cbn [map fst] in Hk. apply not_elem_of_cons in Hk as [Hne Hk].
  rewrite filter_cons_False by (cbn; congruence). now apply IH.
Qed.

(** With unique keys, a key that is present occurs in one item. *)
Lemma dict_one_item d k :
  NoDup (keys d) -> k ∈ keys d ->
  length (filter (fun kv : list Z * V => kv.1 = k) d) = 1%nat.
Proof.
  unfold keys. induction d as [|[k' v'] d IH]; intros Hd Hk.
  - now apply not_elem_of_nil in Hk.
  - cbn [map fst] in Hd, Hk. apply NoDup_cons in Hd as [Hk' Hd].
    destruct (decide (k' = k)) as [E|E].
    + subst k'. rewrite filter_cons_True by reflexivity. cbn [length].
      now rewrite filter_absent_key.
    + rewrite filter_cons_False by (cbn; congruence).
      apply IH; [exact Hd|]. apply elem_of_cons in Hk as [Hk|Hk]; congruence.
Qed.

Lemma dict_set_key_present d k v : k ∈ keys (dict_set k v d).
Proof.
  rewrite keys_dict_set. destruct (decide (k ∈ keys d)); [assumption|].
  apply elem_of_app. right. apply list_elem_of_singleton. reflexivity.
Qed.
End Dict.

(** C8: [add_record] assigns the record to the key [record.name], so that
    the name then leads to that record. After two calls with records of the
    same name the book is what the second call alone would have made it,
    whatever the first record held: the name leads to the second record as
    it is, it is the key of exactly one item, and every other name leads to
    what it led to before. *)
Theorem add_record_twice (book : AddressBook) (r1 r2 : Record_) :
  NoDup (keys book) ->
  name r1 = name r2 ->
  let book' := add_record r2 (add_record r1 book) in
  find_record (name r1) (add_record r1 book) = Some r1
  /\ find_record (name r2) book' = Some r2
  /\ length (filter (fun kv : list Z * Record_ => kv.1 = name r2) book') = 1%nat
  /\ NoDup (keys book')
  /\ book' = add_record r2 book
  /\ (forall n, n <> name r2 -> find_record n book' = find_record n book).
Proof.
  intros Hd Hn book'. subst book'. unfold add_record, find_record.
  split; [apply dict_get_set_eq|].
  rewrite Hn, dict_set_twice.
  repeat split.
  - apply dict_get_set_eq.
  - apply dict_one_item; [now apply dict_set_NoDup | apply dict_set_key_present].
  - now apply dict_set_NoDup.
  - intros n Hne. now apply dict_get_set_ne.
Qed.

Lemma add_record_twice_witness :
  let bob1 := mk_Record (lit "Bob") [0%nat] (Some (mk_datetime 1990 6 15 0 0 0 0)) in
  let bob2 := mk_Record (lit "Bob") [1%nat; 2%nat] None in
  let book := [(lit "Ann", new_Record (lit "Ann"))] in
  find_record (lit "Bob") (add_record bob2 (add_record bob1 book)) = Some bob2
  /\ add_record bob2 (add_record bob1 book)
     = [(lit "Ann", new_Record (lit "Ann")); (lit "Bob", bob2)].
Proof.
  intros bob1 bob2 book.
  assert (NoDup (keys book)) as Hd.
  { apply NoDup_cons. split; [apply not_elem_of_nil | apply NoDup_nil; exact I]. }
  destruct (add_record_twice book bob1 bob2 Hd eq_refl) as (_ & Hf & _ & _ & He & _).
  split; [exact Hf | reflexivity].
Defined.

(** ** The calendar *)

Lemma days_before_year_cycles (a b c e : Z) :
  0 <= a -> 0 <= b <= 3 -> 0 <= c <= 24 -> 0 <= e <= 3 ->
  days_before_year (400 * a + 100 * b + 4 * c + e + 1)
  = 146097 * a + 36524 * b + 1461 * c + 365 * e.
Proof.
  intros. unfold days_before_year. cbv zeta.
  replace (400 * a + 100 * b + 4 * c + e + 1 - 1) with (400 * a + 100 * b + 4 * c + e) by lia.
  Z.div_mod_to_equations; lia.
Qed.

Lemma is_leap_cycles (a b c e : Z) :
  0 <= a -> 0 <= b <= 3 -> 0 <= c <= 24 -> 0 <= e <= 3 ->
  is_leap (400 * a + 100 * b + 4 * c + e + 1)
  = (e =? 3) && (negb (c =? 24) || (b =? 3)).
Proof.
  intros. unfold is_leap.
  destruct (Z.eqb_spec e 3), (Z.eqb_spec c 24), (Z.eqb_spec b 3);
  repeat match goal with |- context [?x mod ?k =? 0] => destruct (Z.eqb_spec (x mod k) 0) end;
  cbn; try reflexivity; exfalso; Z.div_mod_to_equations; lia.
Qed.

Lemma month_day_in_spec (leap : bool) (n : Z) :
  0 <= n < 365 ->
  let '(m, d) := month_day_in leap n in
  1 <= m <= 12 /\ 1 <= d <= days_in_month_in leap m
  /\ days_before_month_in leap m + d = n + 1.
Proof.
  intros Hn.
  assert (month_day_ok leap n = true) as H.
  { destruct leap;
      apply (check_interval (month_day_ok _) 0 365); (vm_compute; reflexivity) || lia. }
  unfold month_day_ok in H. destruct (month_day_in leap n) as [m d].
  repeat (apply andb_prop in H as [H ?]). lia.
Qed.

Lemma ord2ymd_spec (n : Z) :
  1 <= n ->
  let '(y, m, d) := ord2ymd n in
  1 <= y /\ 1 <= m <= 12 /\ 1 <= d <= days_in_month y m /\ ymd2ord y m d = n.
Proof.
  intros Hn. unfold ord2ymd. cbv zeta.
  pose proof (Z.div_mod (n - 1) 146097 ltac:(lia)) as E1.
  pose proof (Z.mod_pos_bound (n - 1) 146097 ltac:(lia)) as B1.
  pose proof (Z.div_pos (n - 1) 146097 ltac:(lia) ltac:(lia)) as P1.
  set (a := (n - 1) / 146097) in *. set (r1 := (n - 1) mod 146097) in *.
  pose proof (Z.div_mod r1 36524 ltac:(lia)) as E2.
  pose proof (Z.mod_pos_bound r1 36524 ltac:(lia)) as B2.
  set (b := r1 / 36524) in *. set (r2 := r1 mod 36524) in *.
  pose proof (Z.div_mod r2 1461 ltac:(lia)) as E3.
  pose proof (Z.mod_pos_bound r2 1461 ltac:(lia)) as B3.
  set (c := r2 / 1461) in *. set (r3 := r2 mod 1461) in *.
  pose proof (Z.div_mod r3 365 ltac:(lia)) as E4.
  pose proof (Z.mod_pos_bound r3 365 ltac:(lia)) as B4.
  set (e := r3 / 365) in *. set (r4 := r3 mod 365) in *.
  clearbody a r1 b r2 c r3 e r4.
  assert (0 <= b <= 4 /\ 0 <= c <= 24 /\ 0 <= e <= 4) as (Hb & Hc & He) by lia.
  destruct (Z.eqb_spec e 4) as [E|E]; [|destruct (Z.eqb_spec b 4) as [E'|E']];
    cbn [orb].
  - (* last day of a leap year closing a four-year cycle *)
    subst e. assert (r4 = 0) by lia. subst r4.
    assert (0 <= b <= 3) by lia.
    replace (a * 400 + 1 + b * 100 + c * 4 + 4 - 1)
      with (400 * a + 100 * b + 4 * c + 3 + 1) by lia.
    unfold ymd2ord, days_before_month, days_in_month.
    rewrite days_before_year_cycles, is_leap_cycles by lia.
    assert (c <> 24) by lia.
    destruct (Z.eqb_spec c 24); [contradiction|]. cbn.
    change (days_before_month_in true 12) with 335. lia.
  - (* last day of a 400-year cycle *)
    subst b. assert (c = 0 /\ e = 0 /\ r4 = 0) as (-> & -> & ->) by lia.
    replace (a * 400 + 1 + 4 * 100 + 0 * 4 + 0 - 1)
      with (400 * a + 100 * 3 + 4 * 24 + 3 + 1) by lia.
    unfold ymd2ord, days_before_month, days_in_month.
    rewrite days_before_year_cycles, is_leap_cycles by lia.
    cbn. change (days_before_month_in true 12) with 335. lia.
  - replace (a * 400 + 1 + b * 100 + c * 4 + e)
      with (400 * a + 100 * b + 4 * c + e + 1) by lia.
    pose proof (days_before_year_cycles a b c e ltac:(lia) ltac:(lia) ltac:(lia)
                  ltac:(lia)) as HY.
    pose proof (is_leap_cycles a b c e ltac:(lia) ltac:(lia) ltac:(lia)
                  ltac:(lia)) as HL.
    assert (1 <= 400 * a + 100 * b + 4 * c + e + 1) as Hy by lia.
    set (y := 400 * a + 100 * b + 4 * c + e + 1) in *. clearbody y.
    rewrite <- HL.
    pose proof (month_day_in_spec (is_leap y) r4 ltac:(lia)) as HM.
    unfold month_day_in in HM. cbv zeta in HM.
    unfold ymd2ord, days_before_month, days_in_month.
    destruct (r4 <? days_before_month_in (is_leap y) ((r4 + 50) / 32));
      destruct HM as (Hm & Hd & HE); lia.
Qed.

Lemma days_before_year_succ (y : Z) :
  days_before_year (y + 1)
  = days_before_year y + (if is_leap y then 366 else 365).
Proof.
  unfold days_before_year, is_leap. cbv zeta.
  replace (y + 1 - 1) with y by lia.
  repeat match goal with
         | |- context [?x mod ?k =? 0] => destruct (Z.eqb_spec (x mod k) 0)
         end;
    cbn [andb orb negb]; Z.div_mod_to_equations; lia.
Qed.

Lemma days_before_year_mono (y y' : Z) :
  y <= y' -> days_before_year y <= days_before_year y'.
Proof.
  intros H. replace y' with (y + (y' - y)) by lia.
  assert (0 <= y' - y) as Hk by lia. revert Hk.
  generalize (y' - y) as k. clear H y'.
  apply (natlike_ind (fun k => days_before_year y <= days_before_year (y + k)));
    [rewrite Z.add_0_r; lia|].
  intros k Hk IH. replace (y + Z.succ k) with (y + k + 1) by lia.
  rewrite days_before_year_succ. destruct (is_leap (y + k)); lia.
Qed.

Lemma months_chain (leap : bool) (m : Z) :
  1 <= m <= 11 ->
  days_before_month_in leap (m + 1)
  = days_before_month_in leap m + days_in_month_in leap m
  /\ 28 <= days_in_month_in leap m.
Proof.
  intros Hm.
  assert (months_chain_ok leap m = true) as H.
  { destruct leap;
      apply (check_interval (months_chain_ok _) 1 11); (vm_compute; reflexivity) || lia. }
  unfold months_chain_ok in H. apply andb_prop in H as [H1 H2]. lia.
Qed.

Lemma days_before_month_in_mono (leap : bool) (m m' : Z) :
  1 <= m -> m <= m' -> m' <= 12 ->
  days_before_month_in leap m <= days_before_month_in leap m'.
Proof.
  intros H1 H H12. replace m' with (m + (m' - m)) in * by lia.
  assert (0 <= m' - m) as Hk by lia. revert Hk H12.
  generalize (m' - m) as k. clear H m'.
  apply (natlike_ind (fun k => m + k <= 12 ->
           days_before_month_in leap m <= days_before_month_in leap (m + k)));
    [rewrite Z.add_0_r; lia|].
  intros k Hk IH Hle. replace (m + Z.succ k) with (m + k + 1) by lia.
  destruct (months_chain leap (m + k) ltac:(lia)) as [-> ?]. lia.
Qed.

Lemma valid_date_spec (y m d : Z) :
  valid_date y m d = true <->
  1 <= y <= 9999 /\ 1 <= m <= 12 /\ 1 <= d <= days_in_month y m.
Proof.
  unfold valid_date, MINYEAR, MAXYEAR. rewrite !andb_true_iff, !Z.leb_le. lia.
Qed.

(** The end of month [m] is not after the start of a later month, nor
    after the end of the year. *)
Lemma month_end_bound (leap : bool) (m m' : Z) :
  1 <= m -> m < m' -> m' <= 12 ->
  days_before_month_in leap m + days_in_month_in leap m
  <= days_before_month_in leap m'.
Proof.
  intros H1 H H12. destruct (months_chain leap m ltac:(lia)) as [<- _].
  apply days_before_month_in_mono; lia.
Qed.

Lemma year_end_bound (leap : bool) (m : Z) :
  1 <= m <= 12 ->
  0 <= days_before_month_in leap m
  /\ days_before_month_in leap m + days_in_month_in leap m
     <= (if leap then 366 else 365).
Proof.
  intros Hm.
  pose proof (days_before_month_in_mono leap 1 m ltac:(lia) ltac:(lia)
                ltac:(lia)) as H1.
  assert (days_before_month_in leap 1 = 0) as E1 by (now destruct leap).
  assert (days_before_month_in leap 12 + days_in_month_in leap 12
          = if leap then 366 else 365) as E12 by (now destruct leap).
  split; [lia|].
  destruct (Z.eq_dec m 12) as [->|Hne]; [lia|].
  pose proof (month_end_bound leap m 12 ltac:(lia) ltac:(lia) ltac:(lia)).
  assert (0 <= days_in_month_in leap 12) by (now destruct leap). lia.
Qed.

Lemma day_of_year_bounds (y m d : Z) :
  1 <= m <= 12 -> 1 <= d <= days_in_month y m ->
  days_before_year y < ymd2ord y m d <= days_before_year (y + 1).
Proof.
  intros Hm Hd. unfold ymd2ord, days_before_month, days_in_month in *.
  rewrite days_before_year_succ.
  pose proof (year_end_bound (is_leap y) m Hm). lia.
Qed.

(** Ordinals follow the order of dates, year first, then month, then
    day. *)
Lemma ymd2ord_lex (y m d y' m' d' : Z) :
  1 <= m <= 12 -> 1 <= d <= days_in_month y m ->
  1 <= m' <= 12 -> 1 <= d' <= days_in_month y' m' ->
  y < y' \/ (y = y' /\ (m < m' \/ (m = m' /\ d < d'))) ->
  ymd2ord y m d < ymd2ord y' m' d'.
Proof.
  intros Hm Hd Hm' Hd' [Hy | [-> [Hlt | [-> Hlt]]]].
  - pose proof (day_of_year_bounds y m d Hm Hd).
    pose proof (day_of_year_bounds y' m' d' Hm' Hd').
    pose proof (days_before_year_mono (y + 1) y' ltac:(lia)). lia.
  - unfold ymd2ord, days_before_month, days_in_month in *.
    pose proof (month_end_bound (is_leap y') m m' ltac:(lia) Hlt ltac:(lia)). lia.
  - unfold ymd2ord. lia.
Qed.

Lemma toordinal_bounds (y m d : Z) :
  valid_date y m d = true -> 1 <= ymd2ord y m d <= MAXORDINAL.
Proof.
  intros H. apply valid_date_spec in H as (Hy & Hm & Hd).
  pose proof (day_of_year_bounds y m d Hm Hd).
  pose proof (days_before_year_mono 1 y ltac:(lia)).
  pose proof (days_before_year_mono (y + 1) 10000 ltac:(lia)).
  change (days_before_year 1) with 0 in *.
  change (days_before_year 10000) with 3652059 in *. unfold MAXORDINAL. lia.
Qed.

(** [ord2ymd] gives a date of the calendar on the ordinals that a [date]
    can have, and the date with that ordinal. *)
Lemma ord2ymd_valid (n : Z) :
  1 <= n <= MAXORDINAL ->
  let '(y, m, d) := ord2ymd n in
  valid_date y m d = true /\ ymd2ord y m d = n.
Proof.
  intros Hn. pose proof (ord2ymd_spec n ltac:(lia)) as H.
  destruct (ord2ymd n) as [[y m] d]. destruct H as (Hy & Hm & Hd & E).
  split; [|exact E]. apply valid_date_spec. repeat split; try lia.
  destruct (Z.le_gt_cases y 9999) as [Hle|Hgt]; [exact Hle | exfalso].
  pose proof (day_of_year_bounds y m d Hm Hd).
  pose proof (days_before_year_mono 10000 y ltac:(lia)).
  change (days_before_year 10000) with 3652059 in *. unfold MAXORDINAL in *. lia.
Qed.

(** ** Datetimes *)

Lemma valid_datetime_spec (dt : datetime) :
  valid_datetime dt = true <->
  valid_date (year dt) (month dt) (day dt) = true
  /\ 0 <= hour dt < 24 /\ 0 <= minute dt < 60 /\ 0 <= second dt < 60
  /\ 0 <= microsecond dt < 1000000.
Proof.
  unfold valid_datetime, valid_time.
  rewrite !andb_true_iff, !Z.leb_le, !Z.ltb_lt. tauto.
Qed.

Lemma weekday_range (dt : datetime) : 0 <= weekday dt < 7.
Proof. unfold weekday. apply Z.mod_pos_bound. lia. Qed.

(** [a < b] compares the dates, and on equal dates the times of day. *)
Lemma datetime_lt_spec (a b : datetime) :
  valid_datetime a = true -> valid_datetime b = true ->
  (datetime_lt a b = true <->
   toordinal a < toordinal b
   \/ (toordinal a = toordinal b /\ time_of_day a < time_of_day b)).
Proof.
  intros Ha Hb.
  apply valid_datetime_spec in Ha as (Hda & Ha). apply valid_date_spec in Hda.
  apply valid_datetime_spec in Hb as (Hdb & Hb). apply valid_date_spec in Hdb.
  unfold datetime_lt, fields, toordinal, time_of_day. cbn [lex_lt].
  destruct a as [ya ma da ha mia sa ua], b as [yb mb db hb mib sb ub];
    cbn [year month day hour minute second microsecond] in *.
  pose proof (fun H => ymd2ord_lex ya ma da yb mb db ltac:(lia) ltac:(lia)
                         ltac:(lia) ltac:(lia) H) as Hlt.
  pose proof (fun H => ymd2ord_lex yb mb db ya ma da ltac:(lia) ltac:(lia)
                         ltac:(lia) ltac:(lia) H) as Hgt.
  assert (ya = yb -> ma = mb -> da = db
          -> ymd2ord ya ma da = ymd2ord yb mb db) as Heq by congruence.
  set (oa := ymd2ord ya ma da) in *. set (ob := ymd2ord yb mb db) in *.
  clearbody oa ob.
  repeat first [rewrite orb_true_iff | rewrite andb_true_iff
               | rewrite Z.ltb_lt | rewrite Z.eqb_eq].
  lia.
Qed.

Lemma toordinal_range (dt : datetime) :
  valid_datetime dt = true -> 1 <= toordinal dt <= MAXORDINAL.
Proof.
  intros H. apply valid_datetime_spec in H as [H _].
  now apply toordinal_bounds.
Qed.

(** Adding whole days moves the ordinal and keeps the time of day; it
    succeeds as long as the ordinal stays in range. *)
Lemma add_days_spec (dt : datetime) (k : Z) :
  valid_datetime dt = true ->
  1 <= toordinal dt + k <= MAXORDINAL ->
  exists dt',
    add_days dt k = Return dt'
    /\ valid_datetime dt' = true
    /\ toordinal dt' = toordinal dt + k
    /\ time_of_day dt' = time_of_day dt.
Proof.
  intros Hv Hn. unfold add_days.
  destruct (Z.ltb_spec (toordinal dt + k) 1) as [?|_]; [lia|].
  destruct (Z.ltb_spec MAXORDINAL (toordinal dt + k)) as [?|_]; [lia|].
  cbn [orb].
  pose proof (ord2ymd_valid (toordinal dt + k) Hn) as H.
  destruct (ord2ymd (toordinal dt + k)) as [[y m] d]. destruct H as [Hd E].
  exists (with_date dt y m d). repeat split; try assumption.
  apply valid_datetime_spec in Hv as (_ & Ht).
  apply valid_datetime_spec. split; [exact Hd | exact Ht].
Qed.

Lemma add_days_overflow (dt : datetime) (k : Z) :
  MAXORDINAL < toordinal dt + k ->
  add_days dt k = Raise (OverflowError (lit "date value out of range")).
Proof.
  intros H. unfold add_days.
  destruct (Z.ltb_spec MAXORDINAL (toordinal dt + k)) as [_|?]; [|lia].
  now rewrite orb_true_r.
Qed.

(** The last day that a [date] can hold is a Friday, so the Monday after a
    weekend always exists. *)
Lemma weekend_has_monday (dt : datetime) :
  valid_datetime dt = true -> 5 <= weekday dt ->
  1 <= toordinal dt + (7 - weekday dt) <= MAXORDINAL.
Proof.
  intros Hv Hw. pose proof (toordinal_range dt Hv) as Ho.
  unfold weekday, MAXORDINAL in *. Z.div_mod_to_equations. lia.
Qed.

(** C9: [adjust_for_weekend] returns a Monday-to-Friday date as it is. A
    Saturday or Sunday date is moved to a Monday, 2 days later for a
    Saturday and 1 day later for a Sunday, with the time of day kept: the
    result is a later date, it always exists, and no Monday lies between the
    two. *)
Theorem adjust_for_weekend_spec (b : datetime) :
  valid_datetime b = true ->
  (weekday b < 5 -> adjust_for_weekend b = Return b)
  /\ (5 <= weekday b ->
      exists b',
        adjust_for_weekend b = Return b'
        /\ valid_datetime b' = true
        /\ weekday b' = 0
        /\ toordinal b' = toordinal b + (if weekday b =? 5 then 2 else 1)
        /\ time_of_day b' = time_of_day b
        /\ datetime_lt b b' = true
        /\ (forall d, toordinal b < toordinal d < toordinal b' ->
                      weekday d <> 0)).
Proof.
  intros Hv. unfold adjust_for_weekend. pose proof (weekday_range b) as Hr.
  split; intros Hw.
  - destruct (Z.leb_spec 5 (weekday b)) as [?|_]; [lia | reflexivity].
  - destruct (Z.leb_spec 5 (weekday b)) as [_|?]; [|lia].
    unfold find_next_weekday.
    destruct (Z.leb_spec (0 - weekday b) 0) as [_|?]; [|lia].
    replace (0 - weekday b + 7) with (7 - weekday b) by lia.
    destruct (add_days_spec b (7 - weekday b) Hv (weekend_has_monday b Hv Hw))
      as (b' & E & Hv' & Ho & Ht).
    exists b'. split; [exact E|]. split; [exact Hv'|].
    assert (7 - weekday b = if weekday b =? 5 then 2 else 1) as Hk
      by (destruct (Z.eqb_spec (weekday b) 5); lia).
    assert (weekday b' = 0) as Hm
      by (unfold weekday in *; rewrite Ho; Z.div_mod_to_equations; lia).
    repeat split.
    + exact Hm.
    + now rewrite <- Hk.
    + exact Ht.
    + apply datetime_lt_spec; [assumption..|]. left. lia.
    + intros d Hd. unfold weekday in *. rewrite Ho in Hd.
      Z.div_mod_to_equations. lia.
Qed.

Lemma adjust_for_weekend_spec_witness :
  let sat := mk_datetime 2024 6 15 0 0 0 0 in
  weekday sat = 5
  /\ exists b', adjust_for_weekend sat = Return b'
       /\ weekday b' = 0 /\ toordinal b' = toordinal sat + 2.
Proof.
  intros sat. split; [reflexivity|].
  destruct (adjust_for_weekend_spec sat eq_refl) as [_ H].
  destruct (H ltac:(vm_compute; discriminate))
    as (b' & E & _ & Hm & Ho & _).
  exists b'. repeat split; assumption.
Defined.

Example ex_adjust :
  adjust_for_weekend (mk_datetime 2024 6 15 0 0 0 0)
    = Return (mk_datetime 2024 6 17 0 0 0 0)
  /\ adjust_for_weekend (mk_datetime 2024 6 16 8 30 0 0)
    = Return (mk_datetime 2024 6 17 8 30 0 0)
  /\ adjust_for_weekend (mk_datetime 2024 6 14 0 0 0 0)
    = Return (mk_datetime 2024 6 14 0 0 0 0).
Proof. vm_compute. repeat split. Qed.

(** ** Parsing and printing dates *)

Lemma ascii_digit_range (c : Z) : is_ascii_digit c = true <-> 48 <= c <= 57.
Proof. unfold is_ascii_digit. rewrite andb_true_iff, !Z.leb_le. tauto. Qed.

Lemma decimal_value_ascii (c : Z) :
  is_ascii_digit c = true -> decimal_value c = c - 48.
Proof.
  intros H. unfold decimal_value, decimal_ranges. cbn [find fst snd].
  fold (is_ascii_digit c). rewrite H. cbn [fst].
  apply ascii_digit_range in H. apply Z.mod_small. lia.
Qed.

Lemma int_of_2 (a b : Z) :
  is_ascii_digit a = true -> is_ascii_digit b = true ->
  int_of [a; b] = num2 a b.
Proof.
  intros Ha Hb. unfold int_of, num2. cbn [fold_left].
  rewrite !decimal_value_ascii by assumption.
  apply ascii_digit_range in Ha, Hb.
  destruct (Z.eqb_spec a 32), (Z.eqb_spec b 32); lia.
Qed.

Lemma int_of_4 (a b c d : Z) :
  is_ascii_digit a = true -> is_ascii_digit b = true ->
  is_ascii_digit c = true -> is_ascii_digit d = true ->
  int_of [a; b; c; d] = num4 a b c d.
Proof.
  intros Ha Hb Hc Hd. unfold int_of, num4. cbn [fold_left].
  rewrite !decimal_value_ascii by assumption.
  apply ascii_digit_range in Ha, Hb, Hc, Hd.
  destruct (Z.eqb_spec a 32), (Z.eqb_spec b 32), (Z.eqb_spec c 32),
    (Z.eqb_spec d 32); lia.
Qed.

Lemma group_d_two_digits {X} (d1 d2 : Z) (rest : list Z)
    (k : list Z -> list Z -> list X) :
  is_ascii_digit d1 = true -> is_ascii_digit d2 = true ->
  1 <= num2 d1 d2 <= 31 ->
  ('(d, s1) ← group_d (d1 :: d2 :: 46 :: rest); s2 ← dot s1; k d s2)
  = k [d1; d2] rest.
Proof.
  intros H1 H2 Hd. apply ascii_digit_range in H1, H2. unfold num2 in Hd.
  assert (d1 = 48 \/ d1 = 49 \/ d1 = 50 \/ d1 = 51) as Hc1 by lia.
  assert (d2 = 48 \/ d2 = 49 \/ d2 = 50 \/ d2 = 51 \/ d2 = 52 \/ d2 = 53
          \/ d2 = 54 \/ d2 = 55 \/ d2 = 56 \/ d2 = 57) as Hc2 by lia.
  destruct Hc1 as [->|[->|[->| ->]]];
    destruct Hc2 as [->|[->|[->|[->|[->|[->|[->|[->|[->| ->]]]]]]]]];
    try lia; cbn; rewrite ?app_nil_r; reflexivity.
Qed.

Lemma group_m_two_digits {X} (m1 m2 : Z) (rest : list Z)
    (k : list Z -> list Z -> list X) :
  is_ascii_digit m1 = true -> is_ascii_digit m2 = true ->
  1 <= num2 m1 m2 <= 12 ->
  ('(m, s3) ← group_m (m1 :: m2 :: 46 :: rest); s4 ← dot s3; k m s4)
  = k [m1; m2] rest.
Proof.
  intros H1 H2 Hm. apply ascii_digit_range in H1, H2. unfold num2 in Hm.
  assert (m1 = 48 \/ m1 = 49) as Hc1 by lia.
  assert (m2 = 48 \/ m2 = 49 \/ m2 = 50 \/ m2 = 51 \/ m2 = 52 \/ m2 = 53
          \/ m2 = 54 \/ m2 = 55 \/ m2 = 56 \/ m2 = 57) as Hc2 by lia.
  destruct Hc1 as [->| ->];
    destruct Hc2 as [->|[->|[->|[->|[->|[->|[->|[->|[->| ->]]]]]]]]];
    try lia; cbn; rewrite ?app_nil_r; reflexivity.
Qed.

Lemma group_Y_four_digits (y1 y2 y3 y4 : Z) :
  is_ascii_digit y1 = true -> is_ascii_digit y2 = true ->
  is_ascii_digit y3 = true -> is_ascii_digit y4 = true ->
  group_Y [y1; y2; y3; y4] = [([y1; y2; y3; y4], [])].
Proof.
  intros H1 H2 H3 H4. unfold group_Y. cbn [forallb].
  now rewrite !ascii_digit_is_decimal by assumption.
Qed.

(** What [%d] and [%m] print. *)
Lemma two_digits (n : Z) :
  0 <= n < 100 ->
  zfill 2 (decimal n) = [digit_char (n / 10); digit_char (n mod 10)].
Proof.
  intros Hn.
  assert (forallb (fun z => bool_decide
       (zfill 2 (decimal z) = [digit_char (z / 10); digit_char (z mod 10)]))
            (seqZ 0 100) = true) as H by (vm_compute; reflexivity).
  apply check_interval with (z := n) in H; [|lia].
  cbv beta in H. now apply bool_decide_eq_true in H.
Qed.

(** What [%Y] prints when the C library pads the year. *)
Lemma four_digits (n : Z) :
  0 <= n < 10000 ->
  zfill 4 (decimal n)
  = [digit_char (n / 1000); digit_char (n / 100 mod 10);
     digit_char (n / 10 mod 10); digit_char (n mod 10)].
Proof.
  intros Hn.
  assert (forallb (fun z => bool_decide
       (zfill 4 (decimal z)
        = [digit_char (z / 1000); digit_char (z / 100 mod 10);
           digit_char (z / 10 mod 10); digit_char (z mod 10)]))
            (seqZ 0 10000) = true) as H by (vm_compute; reflexivity).
  apply check_interval with (z := n) in H; [|lia].
  cbv beta in H. now apply bool_decide_eq_true in H.
Qed.

(** From year 1000 on the padding adds nothing. *)
Lemma four_digits_unpadded (n : Z) :
  1000 <= n < 10000 -> decimal n = zfill 4 (decimal n).
Proof.
  intros Hn.
  assert (forallb (fun z => bool_decide (decimal z = zfill 4 (decimal z)))
            (seqZ 1000 9000) = true) as H by (vm_compute; reflexivity).
  apply check_interval with (z := n) in H; [|lia].
  cbv beta in H. now apply bool_decide_eq_true in H.
Qed.

Lemma year_text_four_digits (sty : year_style) (n : Z) :
  1000 <= n < 10000 -> year_text sty n = zfill 4 (decimal n).
Proof.
  intros Hn. destruct sty; cbn [year_text]; [|reflexivity].
  now apply four_digits_unpadded.
Qed.

Lemma is_dmY_text_inv (s : list Z) :
  is_dmY_text s = true ->
  exists d1 d2 m1 m2 y1 y2 y3 y4,
    s = [d1; d2; 46; m1; m2; 46; y1; y2; y3; y4]
    /\ Forall (fun c => is_ascii_digit c = true) [d1; d2; m1; m2; y1; y2; y3; y4]
    /\ valid_date (num4 y1 y2 y3 y4) (num2 m1 m2) (num2 d1 d2) = true.
Proof.
  intros H.
  do 10 (destruct s as [|? s]; [discriminate H|]).
  destruct s; [|discriminate H].
  cbn [is_dmY_text forallb] in H. rewrite !andb_true_iff, !Z.eqb_eq in H.
  destruct H as [[[Hc ->] ->] Hv].
  do 8 eexists. split; [reflexivity|]. split; [|exact Hv].
  repeat (constructor; [tauto|]). constructor.
Qed.

Lemma parse_dmY_text (d1 d2 m1 m2 y1 y2 y3 y4 : Z) :
  Forall (fun c => is_ascii_digit c = true) [d1; d2; m1; m2; y1; y2; y3; y4] ->
  valid_date (num4 y1 y2 y3 y4) (num2 m1 m2) (num2 d1 d2) = true ->
  strptime_dmY [d1; d2; 46; m1; m2; 46; y1; y2; y3; y4]
  = Some (mk_datetime (num4 y1 y2 y3 y4) (num2 m1 m2) (num2 d1 d2) 0 0 0 0).
Proof.
  intros Hc Hv.
  repeat match goal with
         | H : Forall _ (_ :: _) |- _ => apply Forall_cons in H as [? H]
         end.
  pose proof Hv as Hv'. apply valid_date_spec in Hv' as (Hy & Hm & Hd).
  assert (days_in_month (num4 y1 y2 y3 y4) (num2 m1 m2) <= 31) as Hdim.
  { unfold days_in_month, days_in_month_in.
    repeat match goal with |- context [if ?b then _ else _] => destruct b end; lia. }
  unfold strptime_dmY, pattern_matches.
  rewrite group_d_two_digits by (assumption || lia).
  rewrite group_m_two_digits by (assumption || lia).
  rewrite group_Y_four_digits by assumption.
  cbn [mbind list_bind app mret].
  rewrite !int_of_2, int_of_4 by assumption.
  now rewrite Hv.
Qed.

Lemma format_num2 (a b : Z) :
  is_ascii_digit a = true -> is_ascii_digit b = true ->
  zfill 2 (decimal (num2 a b)) = [a; b].
Proof.
  intros Ha Hb. apply ascii_digit_range in Ha, Hb.
  rewrite two_digits by (unfold num2; lia).
  unfold digit_char, num2. f_equal; [|f_equal]; Z.div_mod_to_equations; lia.
Qed.

Lemma format_num4 (a b c d : Z) :
  is_ascii_digit a = true -> is_ascii_digit b = true ->
  is_ascii_digit c = true -> is_ascii_digit d = true ->
  zfill 4 (decimal (num4 a b c d)) = [a; b; c; d].
Proof.
  intros Ha Hb Hc Hd. apply ascii_digit_range in Ha, Hb, Hc, Hd.
  rewrite four_digits by (unfold num4; lia).
  unfold digit_char, num4.
  f_equal; [|f_equal; [|f_equal; [|f_equal]]]; Z.div_mod_to_equations; lia.
Qed.

(** Texts outside the padded format, as [strptime] treats them: a day with
    a leading blank and a day whose second digit is ARABIC-INDIC DIGIT TWO
    (U+0662) are read, a fifth year digit and a day that starts with a
    non-ASCII zero are refused, as is the year 0000. *)
Example ex_strptime :
  strptime_dmY (lit " 5.01.2024") = Some (mk_datetime 2024 1 5 0 0 0 0)
  /\ strptime_dmY ([49; 1634] ++ lit ".01.2024")
     = Some (mk_datetime 2024 1 12 0 0 0 0)
  /\ strptime_dmY (lit "12.1.20245") = None
  /\ strptime_dmY ([1632; 1633] ++ lit ".01.2024") = None
  /\ strptime_dmY (lit "01.01.0000") = None.
Proof. vm_compute. repeat split. Qed.

(** C5, as the code has it: a text in the format DD.MM.YYYY that denotes a
    date of the calendar is accepted by [Birthday], which holds that date at
    midnight. Formatting it with [%d.%m.%Y] gives the text back when [%Y]
    is padded to four digits, and with any C library when the year is 1000
    or later. 29.02.2024 is accepted and 29.02.2023 is refused with a
    [ValueError]. *)
Theorem Birthday_round_trip :
  (forall (sty : year_style) (s : list Z),
     is_dmY_text s = true ->
     exists dt,
       Birthday s = Return dt
       /\ valid_datetime dt = true
       /\ time_of_day dt = 0
       /\ strftime_dmY YearZeroPadded dt = s
       /\ (1000 <= dmY_year s -> strftime_dmY sty dt = s))
  /\ Birthday (lit "29.02.2024") = Return (mk_datetime 2024 2 29 0 0 0 0)
  /\ Birthday (lit "29.02.2023")
     = Raise (ValueError (lit "Invalid date format. Use DD.MM.YYYY")).
Proof.
  split; [|split; reflexivity].
  intros sty s Hs.
  apply is_dmY_text_inv in Hs
    as (d1 & d2 & m1 & m2 & y1 & y2 & y3 & y4 & -> & Hc & Hv).
  exists (mk_datetime (num4 y1 y2 y3 y4) (num2 m1 m2) (num2 d1 d2) 0 0 0 0).
  unfold Birthday. rewrite (parse_dmY_text _ _ _ _ _ _ _ _ Hc Hv).
  repeat match goal with
         | H : Forall _ (_ :: _) |- _ => apply Forall_cons in H as [? H]
         end.
  assert (strftime_dmY YearZeroPadded
            (mk_datetime (num4 y1 y2 y3 y4) (num2 m1 m2) (num2 d1 d2) 0 0 0 0)
          = [d1; d2; 46; m1; m2; 46; y1; y2; y3; y4]) as Hpad.
  { unfold strftime_dmY, year_text.
    cbn [year month day].
    now rewrite !format_num2, format_num4 by assumption. }
  split; [reflexivity|]. split.
  { unfold valid_datetime. cbn [year month day]. now rewrite Hv. }
  split; [reflexivity|]. split; [exact Hpad|].
  cbn [dmY_year]. intros Hy. rewrite <- Hpad.
  unfold strftime_dmY. cbn [year month day]. do 4 f_equal.
  apply valid_date_spec in Hv. apply year_text_four_digits. lia.
Qed.

Lemma Birthday_round_trip_witness :
  round_trip YearUnpadded (lit "29.02.2024").
Proof.
  destruct (proj1 Birthday_round_trip YearUnpadded (lit "29.02.2024") eq_refl)
    as (dt & E & _ & _ & _ & H).
  exists dt. split; [exact E|]. apply H. vm_compute. discriminate.
Defined.

(** Against C5 as stated: with the C library that does not pad [%Y], a year
    below 1000 loses its leading zeros: 02.01.0999 is accepted and comes back
    as 02.01.999. *)
Lemma Birthday_round_trip_year_999 :
  is_dmY_text (lit "02.01.0999") = true
  /\ ~ round_trip YearUnpadded (lit "02.01.0999").
Proof.
  split; [reflexivity|]. intros (dt & E & H).
  vm_compute in E. injection E as <-. vm_compute in H. discriminate H.
Qed.

(** ** Upcoming birthdays *)

Lemma replace_year_ok (b : datetime) (y : Z) :
  1 <= y <= 9999 -> day b <= days_in_month y (month b) ->
  replace_year b y = Return (with_date b y (month b) (day b)).
Proof.
  intros Hy Hd. unfold replace_year, MINYEAR, MAXYEAR.
  destruct (Z.ltb_spec y 1); [lia|]. destruct (Z.ltb_spec 9999 y); [lia|].
  cbn [orb]. destruct (Z.ltb_spec (days_in_month y (month b)) (day b)); [lia|].
  reflexivity.
Qed.

(** 29 February cannot be moved into a common year. *)
Lemma replace_year_leap_day (b : datetime) (y : Z) :
  1 <= y <= 9999 -> month b = 2 -> day b = 29 -> is_leap y = false ->
  replace_year b y = Raise (ValueError (lit "day is out of range for month")).
Proof.
  intros Hy Hm Hd Hl. unfold replace_year, MINYEAR, MAXYEAR.
  destruct (Z.ltb_spec y 1); [lia|]. destruct (Z.ltb_spec 9999 y); [lia|].
  cbn [orb]. unfold days_in_month. rewrite Hm, Hd, Hl. reflexivity.
Qed.

(** Any other day of the year exists in every year. *)
Lemma day_in_every_year (b : datetime) (y : Z) :
  valid_datetime b = true -> ~ (month b = 2 /\ day b = 29) ->
  day b <= days_in_month y (month b).
Proof.
  intros Hv Hn. apply valid_datetime_spec in Hv as [Hv _].
  apply valid_date_spec in Hv as (_ & Hm & Hd).
  unfold days_in_month, days_in_month_in in *.
  destruct (Z.eqb_spec (month b) 2) as [E|E]; [|exact (proj2 Hd)].
  destruct (is_leap (year b)), (is_leap y); lia.
Qed.

Lemma with_date_valid (b : datetime) (y : Z) :
  valid_datetime b = true -> 1 <= y <= 9999 ->
  day b <= days_in_month y (month b) ->
  valid_datetime (with_date b y (month b) (day b)) = true.
Proof.
  intros Hv Hy Hd. apply valid_datetime_spec in Hv as (Hdate & Ht).
  apply valid_date_spec in Hdate as (_ & Hm & Hd').
  apply valid_datetime_spec. split; [|exact Ht].
  apply valid_date_spec. cbn. lia.
Qed.

Lemma adjust_for_weekend_total (b : datetime) :
  valid_datetime b = true ->
  exists b', adjust_for_weekend b = Return b' /\ valid_datetime b' = true.
Proof.
  intros Hv. unfold adjust_for_weekend.
  destruct (Z.leb_spec 5 (weekday b)) as [Hw|Hw]; [|now exists b].
  unfold find_next_weekday. pose proof (weekday_range b).
  destruct (Z.leb_spec (0 - weekday b) 0); [|lia].
  replace (0 - weekday b + 7) with (7 - weekday b) by lia.
  destruct (add_days_spec b (7 - weekday b) Hv (weekend_has_monday b Hv Hw))
    as (b' & E & Hv' & _).
  now exists b'.
Qed.

(** The loop stops with the exception of the first item that raises. *)
Lemma upcoming_loop_raises (sty : year_style) (today : datetime) (days : Z)
    (items : list (list Z * Record_)) (acc : list entry) :
  Exists (fun item => exists e, upcoming_item sty today days item = Raise e) items ->
  exists e, upcoming_loop sty today days items acc = Raise e.
Proof.
  intros H. revert acc. induction H as [item items [e He] | item items _ IH];
    intros acc; cbn [upcoming_loop].
  - rewrite He. now exists e.
  - destruct (upcoming_item sty today days item) as [new|e]; cbn.
    + apply IH.
    + now exists e.
Qed.

Lemma upcoming_loop_returns (sty : year_style) (today : datetime) (days : Z)
    (items : list (list Z * Record_)) (acc : list entry) :
  Forall (fun item => exists l, upcoming_item sty today days item = Return l) items ->
  exists l, upcoming_loop sty today days items acc = Return l.
Proof.
  intros H. revert acc. induction H as [|item items [l Hl] _ IH];
    intros acc; cbn [upcoming_loop].
  - now exists acc.
  - rewrite Hl. cbn. apply IH.
Qed.

(** X15: a record born on 29 February makes the whole call fail in every
    common year: whatever the other records of the book, no list is
    returned. *)
Lemma upcoming_leap_day_raises (sty : year_style) (today : datetime)
    (days : Z) (book : list (list Z * Record_)) (n : list Z) (r : Record_)
    (b : datetime) :
  valid_datetime today = true -> is_leap (year today) = false ->
  (n, r) ∈ book -> birthday r = Some b -> month b = 2 -> day b = 29 ->
  exists e, get_upcoming_birthdays sty today book days = Raise e.
Proof.
  intros Hv Hl Hin Hb Hm Hd. apply upcoming_loop_raises.
  apply Exists_exists. exists (n, r). split; [exact Hin|].
  apply valid_datetime_spec in Hv as [Hv _].
  apply valid_date_spec in Hv as (Hy & _).
  unfold upcoming_item. cbn [snd]. rewrite Hb.
  rewrite (replace_year_leap_day b (year today) Hy Hm Hd Hl).
  eexists. reflexivity.
Qed.

(** X12: when no record of the book has its birthday on 29 February, and
    [today] is before the last year of the calendar, the call returns a
    list. *)
Lemma upcoming_total (sty : year_style) (today : datetime) (days : Z)
    (book : list (list Z * Record_)) :
  valid_datetime today = true -> year today < 9999 ->
  Forall (fun item : list Z * Record_ =>
            forall b, birthday item.2 = Some b ->
                      valid_datetime b = true /\ ~ (month b = 2 /\ day b = 29))
         book ->
  exists l, get_upcoming_birthdays sty today book days = Return l.
Proof.
  intros Hv Hy Hbook. apply upcoming_loop_returns.
  eapply Forall_impl; [exact Hbook|]. intros [n r] Hr. cbn [snd] in Hr.
  unfold upcoming_item. cbn [fst snd].
  destruct (birthday r) as [b|]; [|now eexists].
  destruct (Hr b eq_refl) as [Hvb Hn].
  pose proof Hv as Hv'. apply valid_datetime_spec in Hv' as [Hd _].
  apply valid_date_spec in Hd as (Hyr & _).
  rewrite (replace_year_ok b (year today)) by (lia || now apply day_in_every_year).
  cbn [mbind result_bind].
  set (this_year := with_date b (year today) (month b) (day b)).
  assert (exists bty, (if datetime_lt this_year today
                       then replace_year b (year today + 1)
                       else Return this_year)
                      = Return bty /\ valid_datetime bty = true) as (bty & -> & Hbty).
  { destruct (datetime_lt this_year today).
    - rewrite (replace_year_ok b (year today + 1))
        by (lia || now apply day_in_every_year).
      eexists. split; [reflexivity|].
      apply with_date_valid; [assumption | lia | now apply day_in_every_year].
    - eexists. split; [reflexivity|].
      apply with_date_valid; [assumption | lia | now apply day_in_every_year]. }
  cbn [mbind result_bind].
  destruct ((0 <=? sub_days bty today) && (sub_days bty today <=? days));
    [|eexists; reflexivity].
  destruct (adjust_for_weekend_total bty Hbty) as (adj & -> & _).
  eexists. reflexivity.
Qed.

(** [(a - b).days] is the difference of the dates, less one when the time
    of day of [a] is the earlier one. *)
Lemma sub_days_spec (a b : datetime) :
  valid_datetime a = true -> valid_datetime b = true ->
  sub_days a b
  = toordinal a - toordinal b
    + (if time_of_day a <? time_of_day b then -1 else 0).
Proof.
  intros Ha Hb.
  apply valid_datetime_spec in Ha as (_ & Ha).
  apply valid_datetime_spec in Hb as (_ & Hb).
  unfold sub_days, time_of_day. cbv zeta.
  destruct (Z.ltb_spec (((hour a * 60 + minute a) * 60 + second a) * 1000000
                        + microsecond a)
                       (((hour b * 60 + minute b) * 60 + second b) * 1000000
                        + microsecond b));
    Z.div_mod_to_equations; lia.
Qed.

Lemma ymd2ord_next_year (y m d : Z) :
  1 <= m <= 12 -> 365 <= ymd2ord (y + 1) m d - ymd2ord y m d <= 366.
Proof.
  intros Hm. unfold ymd2ord, days_before_month, days_before_month_in.
  rewrite days_before_year_succ.
  destruct (2 <? m), (is_leap y), (is_leap (y + 1)); cbn [andb]; lia.
Qed.

Lemma replace_year_inv (b x : datetime) (y : Z) :
  replace_year b y = Return x ->
  x = with_date b y (month b) (day b)
  /\ 1 <= y <= 9999 /\ day b <= days_in_month y (month b).
Proof.
  unfold replace_year, MINYEAR, MAXYEAR.
  destruct (Z.ltb_spec y 1); [discriminate|].
  destruct (Z.ltb_spec 9999 y); [discriminate|]. cbn [orb].
  destruct (Z.ltb_spec (days_in_month y (month b)) (day b)); [discriminate|].
  intros [= <-]. repeat split; lia.
Qed.

(** X14: what the code does with a birthday that falls on today's date once
    the day has begun: the date of this year counts as past, the birthday moves
    to next year and is at least 364 days away, so it is not listed. *)
Lemma birthday_today_not_listed (sty : year_style) (today b : datetime)
    (days : Z) (n : list Z) (r : Record_) :
  valid_datetime today = true -> valid_datetime b = true ->
  birthday r = Some b ->
  month b = month today -> day b = day today ->
  time_of_day b = 0 -> 0 < time_of_day today -> days < 364 ->
  upcoming_item sty today days (n, r) = Return []
  \/ exists e, upcoming_item sty today days (n, r) = Raise e.
Proof.
  intros Hv Hvb Hb Hm Hd Hb0 Ht Hdays.
  pose proof Hv as Hv'. apply valid_datetime_spec in Hv' as [Hdate _].
  apply valid_date_spec in Hdate as (Hy & Hmo & Hda).
  unfold upcoming_item. cbn [fst snd]. rewrite Hb.
  assert (day b <= days_in_month (year today) (month b)) as Hfit
    by (rewrite Hm, Hd; lia).
  rewrite (replace_year_ok b (year today) Hy Hfit). cbn [mbind result_bind].
  set (this_year := with_date b (year today) (month b) (day b)).
  assert (valid_datetime this_year = true) as Hvt
    by (now apply with_date_valid).
  assert (datetime_lt this_year today = true) as ->.
  { apply datetime_lt_spec; [assumption..|]. right. split.
    - unfold toordinal, this_year. cbn [with_date year month day].
      now rewrite Hm, Hd.
    - change (time_of_day this_year) with (time_of_day b). lia. }
  destruct (replace_year b (year today + 1)) as [next|e] eqn:E;
    [|right; now exists e].
  left. cbn [mbind result_bind].
  apply replace_year_inv in E as (-> & Hy' & Hfit').
  set (next := with_date b (year today + 1) (month b) (day b)).
  assert (valid_datetime next = true) as Hvn by (now apply with_date_valid).
  rewrite (sub_days_spec next today Hvn Hv).
  change (time_of_day next) with (time_of_day b).
  destruct (Z.ltb_spec (time_of_day b) (time_of_day today)); [|lia].
  pose proof (ymd2ord_next_year (year today) (month today) (day today) Hmo) as Hn.
  assert (toordinal next = ymd2ord (year today + 1) (month today) (day today))
    as -> by (unfold toordinal, next; cbn; now rewrite Hm, Hd).
  unfold toordinal.
  destruct (Z.leb_spec (ymd2ord (year today + 1) (month today) (day today)
                        - ymd2ord (year today) (month today) (day today) + -1)
                       days) as [?|_]; [lia|].
  now rewrite andb_false_r.
Qed.

(** X13: when [today] is taken at midnight the code follows the calendar:
    the birthday moves to next year only if this year's date is before today,
    and it is listed exactly when it is between 0 and [days] days away. *)
Lemma upcoming_item_at_midnight (sty : year_style) (today b : datetime)
    (days : Z) (n : list Z) (r : Record_) :
  valid_datetime today = true -> time_of_day today = 0 -> year today < 9999 ->
  valid_datetime b = true -> ~ (month b = 2 /\ day b = 29) ->
  birthday r = Some b ->
  let this_year := with_date b (year today) (month b) (day b) in
  let next_year := with_date b (year today + 1) (month b) (day b) in
  let chosen :=
    if toordinal this_year <? toordinal today then next_year else this_year in
  let delta := toordinal chosen - toordinal today in
  upcoming_item sty today days (n, r)
  = if (0 <=? delta) && (delta <=? days)
    then adjusted ← adjust_for_weekend chosen;
         Return [mk_entry n (strftime_dmY sty adjusted)]
    else Return [].
Proof.
  intros Hv Ht0 Hy Hvb Hn Hb this_year next_year chosen delta.
  pose proof Hv as Hv'. apply valid_datetime_spec in Hv' as [Hdate _].
  apply valid_date_spec in Hdate as (Hyr & _).
  assert (valid_datetime this_year = true) as Hvt
    by (apply with_date_valid; [assumption | lia | now apply day_in_every_year]).
  assert (valid_datetime next_year = true) as Hvn
    by (apply with_date_valid; [assumption | lia | now apply day_in_every_year]).
  pose proof Hvb as Hvb'. apply valid_datetime_spec in Hvb' as (_ & Htb).
  assert (0 <= time_of_day b) as Hb0 by (unfold time_of_day; lia).
  unfold upcoming_item. cbn [fst snd]. rewrite Hb.
  rewrite (replace_year_ok b (year today)) by (lia || now apply day_in_every_year).
  cbn [mbind result_bind]. fold this_year.
  assert (datetime_lt this_year today = (toordinal this_year <? toordinal today))
    as ->.
  { apply eq_true_iff_eq. rewrite (datetime_lt_spec _ _ Hvt Hv), Z.ltb_lt.
    change (time_of_day this_year) with (time_of_day b). lia. }
  assert ((if toordinal this_year <? toordinal today
           then replace_year b (year today + 1) else Return this_year)
          = Return chosen) as ->.
  { unfold chosen. destruct (toordinal this_year <? toordinal today);
      [|reflexivity].
    now rewrite (replace_year_ok b (year today + 1))
      by (lia || now apply day_in_every_year). }
  cbn [mbind result_bind].
  assert (valid_datetime chosen = true) as Hvc
    by (unfold chosen; now destruct (toordinal this_year <? toordinal today)).
  rewrite (sub_days_spec chosen today Hvc Hv).
  assert (time_of_day chosen = time_of_day b) as ->
    by (unfold chosen; now destruct (toordinal this_year <? toordinal today)).
  destruct (Z.ltb_spec (time_of_day b) (time_of_day today)); [lia|].
  rewrite Z.add_0_r. reflexivity.
Qed.

(** C1, at an input on which it fails: a contact born on 29 February, as
    [add_birthday] stores it. In the common year 2025 the first [replace]
    raises; in the leap year 2024, once 29 February is past, the second one
    does. Nothing catches the [ValueError], so [get_upcoming_birthdays]
    raises it instead of returning a list. *)
Theorem upcoming_birthdays_leap_day_fails :
  let ann := mk_Record (lit "Ann") [] (Some (mk_datetime 2024 2 29 0 0 0 0)) in
  add_birthday (new_Record (lit "Ann")) (lit "29.02.2024") = (Return tt, ann)
  /\ (forall sty days,
        get_upcoming_birthdays sty (mk_datetime 2025 3 1 10 0 0 0)
          [(lit "Ann", ann)] days
        = Raise (ValueError (lit "day is out of range for month")))
  /\ (forall sty days,
        get_upcoming_birthdays sty (mk_datetime 2024 3 1 10 0 0 0)
          [(lit "Ann", ann)] days
        = Raise (ValueError (lit "day is out of range for month"))).
Proof.
  intros ann. split; [reflexivity|]. split; intros sty days; reflexivity.
Qed.

(** C2, at inputs on which it fails. Today is Monday 10 June 2024, 10:00.
    Bob's birthday is 10 June: this year's date is today's date, 0 days
    away, yet the code finds it earlier than [today], moves it to 2025 and
    does not list it; taken at midnight the same day lists it. Eve's
    birthday is 18 June, 8 days away, yet it is listed with a window of 7
    days, since the difference is 7 days and 14 hours. *)
Theorem upcoming_birthdays_today_skipped (sty : year_style) :
  let bob := mk_Record (lit "Bob") [] (Some (mk_datetime 1990 6 10 0 0 0 0)) in
  let eve := mk_Record (lit "Eve") [] (Some (mk_datetime 1990 6 18 0 0 0 0)) in
  let today := mk_datetime 2024 6 10 10 0 0 0 in
  let midnight := mk_datetime 2024 6 10 0 0 0 0 in
  replace_year (mk_datetime 1990 6 10 0 0 0 0) (year today) = Return midnight
  /\ toordinal midnight - toordinal today = 0
  /\ datetime_lt midnight today = true
  /\ get_upcoming_birthdays sty today [(lit "Bob", bob)] 7 = Return []
  /\ get_upcoming_birthdays sty midnight [(lit "Bob", bob)] 7
     = Return [mk_entry (lit "Bob") (lit "10.06.2024")]
  /\ toordinal (mk_datetime 2024 6 18 0 0 0 0) - toordinal today = 8
  /\ get_upcoming_birthdays sty today [(lit "Eve", eve)] 7
     = Return [mk_entry (lit "Eve") (lit "18.06.2024")].
Proof.
  intros bob eve today midnight. destruct sty; vm_compute; repeat split.
Qed.

(** The examples of the specification, with [today] at 10:00. *)
Example ex_window :
  let ann b := (lit "Ann", mk_Record (lit "Ann") [] (Some b)) in
  get_upcoming_birthdays YearUnpadded (mk_datetime 2024 6 10 10 0 0 0)
    [ann (mk_datetime 1985 6 15 0 0 0 0)] 7
  = Return [mk_entry (lit "Ann") (lit "17.06.2024")]
  /\ get_upcoming_birthdays YearUnpadded (mk_datetime 2024 12 30 10 0 0 0)
       [ann (mk_datetime 1985 1 2 0 0 0 0)] 7
     = Return [mk_entry (lit "Ann") (lit "02.01.2025")]
  /\ get_upcoming_birthdays YearUnpadded (mk_datetime 2024 6 10 10 0 0 0) [] 7
     = Return [].
Proof. vm_compute. repeat split. Qed.

(** ** More on records *)

Lemma Phone_value (phone v : list Z) : Phone phone = Return v -> v = phone.
Proof.
  destruct (Phone_cases phone) as [[_ E] | [(_ & _ & E) | (_ & _ & E)]];
    congruence.
Qed.

Lemma Phone_nonempty (phone v : list Z) : Phone phone = Return v -> phone <> [].
Proof. intros H ->. discriminate H. Qed.

(** What [add_phone] makes of the record and the store when [Phone]
    accepts the text. *)
Lemma add_phone_returns (self : Record_) (phone : list Z) (h : list (list Z))
    (v : list Z) :
  Phone phone = Return v ->
  Forall (fun p => (p < length h)%nat) (phones self) ->
  let self' := mk_Record (name self) (phones self ++ [length h]) (birthday self) in
  let h' := h ++ [phone] in
  add_phone self phone h = (Return tt, self', h')
  /\ phone_values self' h' = phone_values self h ++ [Some phone]
  /\ Forall (fun p => (p < length h')%nat) (phones self')
  /\ (forall p, (p < length h)%nat -> h' !! p = h !! p).
Proof.
  intros HP Hwf self' h'. pose proof (Phone_value _ _ HP) as ->.
  unfold add_phone. rewrite HP. split; [reflexivity|]. repeat split.
  - unfold phone_values, self', h'. cbn [phones]. rewrite map_app. cbn [map].
    f_equal.
    + apply map_ext_in. intros p Hp. rewrite Forall_forall in Hwf.
      apply lookup_app_l, Hwf. now apply list_elem_of_In.
    + now rewrite list_lookup_middle.
  - unfold self', h'. cbn [phones]. rewrite length_app. cbn [length].
    apply Forall_app. split.
    + eapply Forall_impl; [exact Hwf|]. cbn. lia.
    + repeat constructor. lia.
  - intros p Hp. now apply lookup_app_l.
Qed.

(** X1: when [Phone] accepts the text, [add_phone] returns normally and
    appends one new [Phone] object holding that text to the record's list:
    the values of the record's phones are the former ones followed by the
    new one (duplicates included), name and birthday stay, and no [Phone]
    object that existed before is changed. *)
Theorem add_phone_valid (self : Record_) (phone : list Z) (h : list (list Z))
    (v : list Z) :
  Phone phone = Return v ->
  Forall (fun p => (p < length h)%nat) (phones self) ->
  exists self' h',
    add_phone self phone h = (Return tt, self', h')
    /\ name self' = name self /\ birthday self' = birthday self
    /\ phones self' = phones self ++ [length h]
    /\ phone_values self' h' = phone_values self h ++ [Some phone]
    /\ (forall p, (p < length h)%nat -> h' !! p = h !! p).
Proof.
  intros HP Hwf.
  destruct (add_phone_returns self phone h v HP Hwf) as (E & Hv & _ & Hframe).
  do 2 eexists. split; [exact E|]. cbn [name birthday phones]. auto.
Qed.

Lemma add_phone_valid_witness :
  let self := mk_Record (lit "Bob") [0%nat] None in
  let h := [lit "1234567890"] in
  exists self' h',
    add_phone self (lit "1234567890") h = (Return tt, self', h')
    /\ phone_values self' h'
       = [Some (lit "1234567890"); Some (lit "1234567890")].
Proof.
  intros self h.
  destruct (add_phone_valid self (lit "1234567890") h (lit "1234567890") eq_refl)
    as (self' & h' & E & _ & _ & _ & Hv & _).
  { repeat constructor. }
  exists self', h'. split; [exact E | exact Hv].
Defined.

Lemma phone_values_filter (ps : list nat) (h : list (list Z)) (phone : list Z) :
  map (fun p => h !! p) (filter (fun p => h !! p <> Some phone) ps)
  = filter (fun x => x <> Some phone) (map (fun p => h !! p) ps).
Proof.
  induction ps as [|p ps IH]; [reflexivity|].
  cbn [map]. rewrite !filter_cons.
  destruct (decide (h !! p <> Some phone)); cbn [map]; now rewrite IH.
Qed.

Lemma find_phone_None (self : Record_) (phone : list Z) (h : list (list Z)) :
  find_phone self phone h = None <-> Some phone ∉ phone_values self h.
Proof.
  unfold find_phone, phone_values.
  rewrite head_None. induction (phones self) as [|q ps IH].
  - split; [intros _; apply not_elem_of_nil | reflexivity].
  - cbn [map]. rewrite filter_cons, not_elem_of_cons.
    destruct (decide (h !! q = Some phone)) as [E|E].
    + split; [discriminate | intros [H _]; congruence].
    + rewrite IH. split; [intros H; split; [congruence | exact H] | tauto].
Qed.

Lemma find_phone_Some (self : Record_) (phone : list Z) (h : list (list Z))
    (p : nat) :
  find_phone self phone h = Some p ->
  exists l1 l2, phones self = l1 ++ p :: l2
    /\ h !! p = Some phone
    /\ Forall (fun q => h !! q <> Some phone) l1.
Proof.
  unfold find_phone. intros Hp.
  pose proof (head_Some_elem_of _ _ Hp) as Hin.
  apply list_elem_of_filter in Hin as [Hv _].
  apply head_filter_Some in Hp as (l1 & l2 & E & Hl1).
  exists l1, l2. auto.
Qed.

(** X2: [remove_phone] keeps name and birthday and touches no [Phone]
    object; the record is left with the phones whose value differs from the
    text, in their order, so that [find_phone] no longer finds the text.
    Removing a number that the record does not have changes nothing, and
    removing twice is removing once. *)
Theorem remove_phone_spec (self : Record_) (phone : list Z) (h : list (list Z)) :
  let self' := remove_phone self phone h in
  name self' = name self /\ birthday self' = birthday self
  /\ phone_values self' h
     = filter (fun x => x <> Some phone) (phone_values self h)
  /\ find_phone self' phone h = None
  /\ (find_phone self phone h = None -> self' = self)
  /\ remove_phone self' phone h = self'.
Proof.
  intros self'. subst self'. unfold remove_phone.
  cbn [name birthday phones]. repeat split.
  - unfold phone_values. cbn [phones]. apply phone_values_filter.
  - unfold find_phone. cbn [phones]. apply head_None. rewrite list_filter_filter.
    induction (phones self) as [|p ps IH]; [reflexivity|].
    rewrite filter_cons_False; [exact IH | tauto].
  - intros Hn. apply find_phone_None in Hn. unfold phone_values in Hn.
    destruct self as [n ps b]. cbn [name birthday phones] in *.
    f_equal. induction ps as [|p ps IH]; [reflexivity|].
    cbn [map] in Hn. apply not_elem_of_cons in Hn as [Hp Hn].
    rewrite filter_cons_True by congruence. f_equal. now apply IH.
  - f_equal. rewrite list_filter_filter. apply list_filter_iff. tauto.
Qed.

(** X3: [find_phone] returns [None] exactly when no phone of the record has
    the text as its value; otherwise it returns the first [Phone] object of
    the list, in list order, whose value is the text. *)
Theorem find_phone_spec (self : Record_) (phone : list Z) (h : list (list Z)) :
  (find_phone self phone h = None <-> Some phone ∉ phone_values self h)
  /\ (forall p, find_phone self phone h = Some p ->
        exists l1 l2, phones self = l1 ++ p :: l2
          /\ h !! p = Some phone
          /\ Forall (fun q => h !! q <> Some phone) l1).
Proof.
  split; [apply find_phone_None | apply find_phone_Some].
Qed.

Lemma edit_loop_absent (ps : list nat) (old new : list Z) (h : list (list Z)) :
  Forall (fun p => h !! p <> Some old) ps -> edit_loop ps old new h = h.
Proof.
  induction 1 as [|p ps Hp _ IH]; cbn [edit_loop]; [reflexivity|].
  now rewrite decide_False by exact Hp.
Qed.

(** X4: [edit_phone] with a new number that [Phone] accepts and an old
    number that the record does not have changes nothing and returns
    [None], as it does after a replacement: the caller is not told that
    nothing was replaced. *)
Theorem edit_phone_absent (self : Record_) (old_phone new_phone : list Z)
    (h : list (list Z)) (v : list Z) :
  Phone new_phone = Return v ->
  find_phone self old_phone h = None ->
  edit_phone self old_phone new_phone h = (Return None, self, h).
Proof.
  intros HP Hf. unfold edit_phone. rewrite HP. f_equal.
  apply edit_loop_absent. apply Forall_forall. intros p Hp E.
  unfold find_phone in Hf. apply head_None in Hf.
  assert (p ∈ filter (fun p => h !! p = Some old_phone) (phones self)) as Hin
    by (apply list_elem_of_filter; auto).
  rewrite Hf in Hin. now apply not_elem_of_nil in Hin.
Qed.

Lemma edit_phone_absent_witness :
  let self := mk_Record (lit "Bob") [0%nat] None in
  let h := [lit "1234567890"] in
  edit_phone self (lit "5555555555") (lit "0987654321") h = (Return None, self, h).
Proof.
  intros self h.
  exact (edit_phone_absent self (lit "5555555555") (lit "0987654321") h
           (lit "0987654321") eq_refl eq_refl).
Defined.

Lemma filter_none {A} (P : A -> Prop) `{!forall x, Decision (P x)} (l : list A) :
  Forall (fun x => ~ P x) l -> filter P l = [].
Proof.
  induction 1 as [|x l Hx _ IH]; [reflexivity|].
  now rewrite filter_cons_False.
Qed.

(** X5: after [edit_phone] has replaced an old number that the record has
    by a different new one that [Phone] accepts, [find_phone] no longer
    finds the old number; if the record did not have the new number before,
    [find_phone] now finds it in the very [Phone] object that was the first
    to hold the old one. *)
Theorem edit_phone_then_find (self : Record_) (old_phone new_phone : list Z)
    (h : list (list Z)) (v : list Z) :
  Phone new_phone = Return v ->
  new_phone <> old_phone ->
  forall p, find_phone self old_phone h = Some p ->
  exists h',
    edit_phone self old_phone new_phone h = (Return None, self, h')
    /\ find_phone self old_phone h' = None
    /\ (find_phone self new_phone h = None
        -> find_phone self new_phone h' = Some p).
Proof.
  intros HP Hne p Hf. pose proof (Phone_value _ _ HP) as ->.
  set (h' := edit_loop (phones self) old_phone new_phone h).
  exists h'. unfold edit_phone. rewrite HP. split; [reflexivity|].
  assert (forall q, q ∈ phones self ->
            h' !! q = if decide (h !! q = Some old_phone)
                      then Some new_phone else h !! q) as Hin.
  { intros q Hq. unfold h'. rewrite edit_loop_lookup.
    repeat destruct (decide _); try reflexivity; exfalso; tauto. }
  clearbody h'. split.
  - apply find_phone_None. unfold phone_values. intros Hel.
    apply list_elem_of_In, in_map_iff in Hel as (q & E & Hq).
    apply list_elem_of_In in Hq. rewrite (Hin q Hq) in E.
    destruct (decide (h !! q = Some old_phone)); congruence.
  - intros Hnone.
    apply find_phone_Some in Hf as (l1 & l2 & Eps & Hp & Hl1).
    apply find_phone_None in Hnone.
    unfold find_phone. rewrite Eps, filter_app.
    rewrite filter_none.
    + rewrite filter_cons_True; [reflexivity|].
      rewrite Hin by (rewrite Eps; apply elem_of_app; right; left).
      now rewrite decide_True.
    + apply Forall_forall. intros q Hq E.
      assert (q ∈ phones self) as Hqs
        by (rewrite Eps; apply elem_of_app; now left).
      rewrite (Hin q Hqs) in E. rewrite Forall_forall in Hl1.
      rewrite decide_False in E by now apply Hl1.
      apply Hnone. unfold phone_values.
      apply list_elem_of_In, in_map_iff. exists q. split; [exact E|].
      now apply list_elem_of_In.
Qed.

Lemma edit_phone_then_find_witness :
  let self := mk_Record (lit "Bob") [0%nat; 1%nat] None in
  let h := [lit "1111111111"; lit "2222222222"] in
  exists h',
    edit_phone self (lit "2222222222") (lit "3333333333") h
    = (Return None, self, h')
    /\ find_phone self (lit "2222222222") h' = None
    /\ find_phone self (lit "3333333333") h' = Some 1%nat.
Proof.
  intros self h.
  destruct (edit_phone_then_find self (lit "2222222222") (lit "3333333333") h
              (lit "3333333333") eq_refl ltac:(discriminate) 1%nat eq_refl)
    as (h' & E & Hold & Hnew).
  exists h'. repeat split; [exact E | exact Hold | exact (Hnew eq_refl)].
Defined.

(** ** More on the address book *)

Lemma dict_get_None {V} (d : list (list Z * V)) (k : list Z) :
  dict_get k d = None <-> k ∉ keys d.
Proof.
  unfold keys. induction d as [|[k' v] d IH]; cbn [dict_get map fst].
  - split; [intros _; apply not_elem_of_nil | reflexivity].
  - rewrite not_elem_of_cons. destruct (decide (k' = k)) as [E|E].
    + split; [discriminate | intros [H _]; congruence].
    + rewrite IH. split; [intros H; split; [congruence | exact H] | tauto].
Qed.

Lemma dict_get_del_eq {V} (d : list (list Z * V)) (k : list Z) :
  dict_get k (dict_del k d) = None.
Proof.
  unfold dict_del. induction d as [|[k' v] d IH]; [reflexivity|].
  rewrite filter_cons. cbn [fst]. destruct (decide (k' <> k)) as [E|E];
    [|exact IH]. cbn [dict_get]. now rewrite decide_False.
Qed.

Lemma dict_get_del_ne {V} (d : list (list Z * V)) (k k0 : list Z) :
  k0 <> k -> dict_get k0 (dict_del k d) = dict_get k0 d.
Proof.
  intros Hne. unfold dict_del. induction d as [|[k' v] d IH]; [reflexivity|].
  rewrite filter_cons. cbn [fst dict_get].
  destruct (decide (k' <> k)) as [E|E]; cbn [dict_get].
  - now rewrite IH.
  - assert (k' = k) as -> by (destruct (decide (k' = k)); tauto).
    now rewrite decide_False by congruence.
Qed.

Lemma dict_del_absent {V} (d : list (list Z * V)) (k : list Z) :
  k ∉ keys d -> dict_del k d = d.
Proof.
  unfold keys, dict_del. induction d as [|[k' v] d IH]; [reflexivity|].
  cbn [map fst]. intros H. apply not_elem_of_cons in H as [Hne Hk].
  rewrite filter_cons_True by (cbn; congruence). f_equal. now apply IH.
Qed.

Lemma keys_dict_del {V} (d : list (list Z * V)) (k : list Z) :
  keys (dict_del k d) = filter (fun k' => k' <> k) (keys d).
Proof.
  unfold keys, dict_del. induction d as [|[k' v] d IH]; [reflexivity|].
  cbn [map fst]. rewrite !filter_cons. cbn [fst].
  destruct (decide (k' <> k)); cbn [map fst]; now rewrite IH.
Qed.

Lemma dict_del_set_new {V} (d : list (list Z * V)) (k : list Z) (v : V) :
  k ∉ keys d -> dict_del k (dict_set k v d) = d.
Proof.
  unfold keys, dict_del. induction d as [|[k' v'] d IH]; cbn [map fst dict_set].
  - intros _. rewrite filter_cons_False by (cbn; tauto). reflexivity.
  - intros H. apply not_elem_of_cons in H as [Hne Hk].
    rewrite decide_False by congruence.
    rewrite filter_cons_True by (cbn; congruence). f_equal. now apply IH.
Qed.

(** X6: after [delete], [find] gives [None] for the name and what it gave
    before for every other name, and the other names keep their order;
    deleting a name that the book does not have leaves the book as it is;
    the keys stay unique. *)
Theorem delete_spec (book : list (list Z * Record_)) (n : list Z) :
  find_record n (delete n book) = None
  /\ (forall n', n' <> n ->
        find_record n' (delete n book) = find_record n' book)
  /\ keys (delete n book) = filter (fun k => k <> n) (keys book)
  /\ (find_record n book = None -> delete n book = book)
  /\ (NoDup (keys book) -> NoDup (keys (delete n book))).
Proof.
  unfold find_record, delete.
  destruct (decide (n ∈ keys book)) as [Hin|Hout].
  - split; [apply dict_get_del_eq|].
    split; [intros n' Hne; now apply dict_get_del_ne|].
    split; [apply keys_dict_del|].
    split; [intros Hn; apply dict_get_None in Hn; contradiction|].
    intros Hd. rewrite keys_dict_del. now apply NoDup_filter.
  - split; [now apply dict_get_None|].
    split; [reflexivity|].
    split; [|split; [reflexivity | trivial]].
    rewrite <- (keys_dict_del book n). now rewrite dict_del_absent.
Qed.

(** X7: adding a record under a name that the book does not have and then
    deleting that name gives the book back as it was, order included. *)
Theorem add_record_delete (book : list (list Z * Record_)) (r : Record_) :
  find_record (name r) book = None ->
  delete (name r) (add_record r book) = book.
Proof.
  intros Hn. apply dict_get_None in Hn. unfold delete, add_record.
  rewrite decide_True by apply dict_set_key_present.
  now apply dict_del_set_new.
Qed.

Lemma add_record_delete_witness :
  let book := [(lit "Ann", new_Record (lit "Ann"))] in
  delete (lit "Bob") (add_record (new_Record (lit "Bob")) book) = book.
Proof.
  intros book. exact (add_record_delete book (new_Record (lit "Bob")) eq_refl).
Defined.

Lemma dict_set_split {V} (d : list (list Z * V)) (k : list Z) (v : V) :
  k ∈ keys d ->
  exists l1 v0 l2, d = l1 ++ (k, v0) :: l2 /\ (k ∉ keys l1)
    /\ dict_set k v d = l1 ++ (k, v) :: l2.
Proof.
  unfold keys. induction d as [|[k' v'] d IH]; cbn [map fst dict_set].
  - intros H. now apply not_elem_of_nil in H.
  - intros H. destruct (decide (k' = k)) as [->|E].
    + exists [], v', d. repeat split. apply not_elem_of_nil.
    + apply elem_of_cons in H as [H|H]; [congruence|].
      destruct (IH H) as (l1 & v0 & l2 & -> & Hk & ->).
      exists ((k', v') :: l1), v0, l2. repeat split.
      cbn [map fst]. apply not_elem_of_cons. split; [congruence | exact Hk].
Qed.

Lemma dict_set_new {V} (d : list (list Z * V)) (k : list Z) (v : V) :
  k ∉ keys d -> dict_set k v d = d ++ [(k, v)].
Proof.
  unfold keys. induction d as [|[k' v'] d IH]; cbn [map fst dict_set];
    [reflexivity|].
  intros H. apply not_elem_of_cons in H as [Hne Hk]. rewrite decide_False by congruence.
  cbn. f_equal. now apply IH.
Qed.

(** X8: [add_record] keeps the iteration order of the book: a record
    under a new name goes to the end, and a record under a name that the
    book has takes the place of the former record of that name, the items
    before and after it staying as they are. *)
Theorem add_record_order (book : list (list Z * Record_)) (r : Record_) :
  (find_record (name r) book = None -> add_record r book = book ++ [(name r, r)])
  /\ (forall r0, find_record (name r) book = Some r0 ->
        exists l1 l2, book = l1 ++ (name r, r0) :: l2
          /\ (name r ∉ keys l1)
          /\ add_record r book = l1 ++ (name r, r) :: l2)
  /\ keys (add_record r book)
     = if decide (name r ∈ keys book) then keys book
       else keys book ++ [name r].
Proof.
  unfold find_record, add_record. repeat split.
  - intros Hn. apply dict_get_None in Hn. now apply dict_set_new.
  - intros r0 Hr0.
    assert (name r ∈ keys book) as Hin.
    { destruct (decide (name r ∈ keys book)) as [H|H]; [exact H|].
      apply dict_get_None in H. congruence. }
    destruct (dict_set_split book (name r) r Hin) as (l1 & v0 & l2 & E & Hk & Es).
    exists l1, l2. subst book. repeat split; try assumption.
    f_equal. f_equal. f_equal.
    clear Es Hin. induction l1 as [|[k' v'] l1 IH]; cbn [app dict_get] in Hr0.
    + rewrite decide_True in Hr0 by reflexivity. congruence.
    + cbn [keys map fst] in Hk. apply not_elem_of_cons in Hk as [Hne Hk].
      rewrite decide_False in Hr0 by congruence. now apply IH.
  - apply keys_dict_set.
Qed.

(** ** More on the scheduler *)

(** X9: [find_next_weekday] on a date and a weekday number from 0 to 6
    moves the date forward by 1 to 7 days to the first later date with that
    weekday, the time of day kept; a date that already has the weekday moves
    a whole week. When that day lies after 31 December 9999 it raises
    [OverflowError]. *)
Theorem find_next_weekday_spec (start_date : datetime) (wd : Z) :
  valid_datetime start_date = true -> 0 <= wd <= 6 ->
  let k := (wd - weekday start_date - 1) mod 7 + 1 in
  (toordinal start_date + k <= MAXORDINAL ->
   exists d,
     find_next_weekday start_date wd = Return d
     /\ valid_datetime d = true
     /\ weekday d = wd
     /\ toordinal d = toordinal start_date + k
     /\ time_of_day d = time_of_day start_date
     /\ datetime_lt start_date d = true
     /\ (forall x, toordinal start_date < toordinal x < toordinal d ->
                   weekday x <> wd))
  /\ (MAXORDINAL < toordinal start_date + k ->
      find_next_weekday start_date wd
      = Raise (OverflowError (lit "date value out of range")))
  /\ (weekday start_date = wd -> k = 7).
Proof.
  intros Hv Hwd k. pose proof (weekday_range start_date) as Hr.
  pose proof (toordinal_range start_date Hv) as Ho.
  assert (1 <= k <= 7) as Hk by (unfold k; Z.div_mod_to_equations; lia).
  assert ((if wd - weekday start_date <=? 0
           then wd - weekday start_date + 7 else wd - weekday start_date) = k)
    as Hahead.
  { unfold k. destruct (Z.leb_spec (wd - weekday start_date) 0);
      Z.div_mod_to_equations; lia. }
  unfold find_next_weekday. cbv zeta. rewrite Hahead.
  split; [|split].
  - intros Hmax.
    destruct (add_days_spec start_date k Hv ltac:(lia)) as (d & E & Hvd & Hod & Htd).
    exists d. split; [exact E|]. split; [exact Hvd|].
    assert (weekday d = wd) as Hwdd.
    { unfold weekday in *. rewrite Hod. unfold k in *.
      Z.div_mod_to_equations. lia. }
    repeat split; try assumption.
    + apply datetime_lt_spec; [assumption..|]. left. lia.
    + intros x Hx. unfold weekday in *. rewrite Hod in Hx. unfold k in *.
      Z.div_mod_to_equations. lia.
  - intros Hmax. now apply add_days_overflow.
  - intros Hsame. unfold k. rewrite Hsame.
    replace (wd - wd - 1) with (-1) by lia. reflexivity.
Qed.

Lemma find_next_weekday_spec_witness :
  exists d,
    find_next_weekday (mk_datetime 2024 6 12 9 30 0 0) 2 = Return d
    /\ weekday d = 2
    /\ toordinal d = toordinal (mk_datetime 2024 6 12 9 30 0 0) + 7.
Proof.
  destruct (find_next_weekday_spec (mk_datetime 2024 6 12 9 30 0 0) 2
              eq_refl ltac:(lia)) as (H & _ & _).
  destruct (H ltac:(vm_compute; discriminate))
    as (d & E & _ & Hw & Ho & _).
  exists d. repeat split; assumption.
Defined.

(** What [adjust_for_weekend] returns is a Monday-to-Friday date at most two
    days later. *)
Lemma adjust_for_weekend_weekday (b b' : datetime) :
  valid_datetime b = true -> adjust_for_weekend b = Return b' ->
  weekday b' < 5 /\ toordinal b <= toordinal b' <= toordinal b + 2.
Proof.
  intros Hv. unfold adjust_for_weekend. pose proof (weekday_range b) as Hr.
  destruct (Z.leb_spec 5 (weekday b)) as [Hw|Hw].
  - unfold find_next_weekday.
    destruct (Z.leb_spec (0 - weekday b) 0); [|lia].
    replace (0 - weekday b + 7) with (7 - weekday b) by lia.
    destruct (add_days_spec b (7 - weekday b) Hv (weekend_has_monday b Hv Hw))
      as (d & E & _ & Ho & _).
    rewrite E. intros [= <-]. unfold weekday in *. rewrite Ho.
    Z.div_mod_to_equations. lia.
  - intros [= <-]. lia.
Qed.

(** X10: what [get_upcoming_birthdays] lists for a contact with a
    birthday. Whenever the loop body returns for the contact, it adds nothing
    or one entry under the contact's name; the date of the entry is never a
    Saturday or a Sunday and lies from 0 to [days + 3] days after today's
    date, and nothing is listed when [days] is negative. *)
Theorem upcoming_item_listed (sty : year_style) (today : datetime) (days : Z)
    (n : list Z) (r : Record_) (b : datetime) (l : list entry) :
  valid_datetime today = true -> valid_datetime b = true ->
  birthday r = Some b ->
  upcoming_item sty today days (n, r) = Return l ->
  l = []
  \/ exists adjusted,
       l = [mk_entry n (strftime_dmY sty adjusted)]
       /\ weekday adjusted < 5
       /\ 0 <= toordinal adjusted - toordinal today <= days + 3
       /\ 0 <= days.
Proof.
  intros Hv Hvb Hb. unfold upcoming_item. cbn [fst snd]. rewrite Hb.
  destruct (replace_year b (year today)) as [this_year|e] eqn:E1;
    cbn [mbind result_bind]; [|discriminate].
  apply replace_year_inv in E1 as (-> & Hy & Hfit).
  set (this_year := with_date b (year today) (month b) (day b)).
  assert (valid_datetime this_year = true) as Hvt by (now apply with_date_valid).
  assert (forall chosen, valid_datetime chosen = true ->
            (if (0 <=? sub_days chosen today) && (sub_days chosen today <=? days)
             then adjusted ← adjust_for_weekend chosen;
                  Return [mk_entry n (strftime_dmY sty adjusted)]
             else Return []) = Return l ->
            l = [] \/ exists adjusted,
              l = [mk_entry n (strftime_dmY sty adjusted)]
              /\ weekday adjusted < 5
              /\ 0 <= toordinal adjusted - toordinal today <= days + 3
              /\ 0 <= days) as Hrest.
  { intros chosen Hvc.
    destruct (Z.leb_spec 0 (sub_days chosen today)) as [H0|H0];
      [|intros [= <-]; now left].
    destruct (Z.leb_spec (sub_days chosen today) days) as [H1|H1];
      [|intros [= <-]; now left].
    cbn [andb]. destruct (adjust_for_weekend chosen) as [adj|e] eqn:Ea;
      cbn [mbind result_bind]; [|discriminate].
    intros [= <-]. right. exists adj. split; [reflexivity|].
    destruct (adjust_for_weekend_weekday chosen adj Hvc Ea) as [Hw Ho].
    rewrite (sub_days_spec chosen today Hvc Hv) in H0, H1.
    destruct (time_of_day chosen <? time_of_day today); lia. }
  destruct (datetime_lt this_year today).
  - destruct (replace_year b (year today + 1)) as [next|e] eqn:E2;
      cbn [mbind result_bind]; [|discriminate].
    apply replace_year_inv in E2 as (-> & Hy' & Hfit').
    apply Hrest. now apply with_date_valid.
  - cbn [mbind result_bind]. now apply Hrest.
Qed.

Lemma upcoming_item_listed_witness :
  let today := mk_datetime 2024 6 10 10 0 0 0 in
  let b := mk_datetime 1985 6 15 0 0 0 0 in
  exists adjusted,
    upcoming_item YearUnpadded today 7 (lit "Ann", mk_Record (lit "Ann") [] (Some b))
    = Return [mk_entry (lit "Ann") (strftime_dmY YearUnpadded adjusted)]
    /\ weekday adjusted < 5.
Proof.
  intros today b.
  destruct (upcoming_item_listed YearUnpadded today 7 (lit "Ann")
              (mk_Record (lit "Ann") [] (Some b)) b
              [mk_entry (lit "Ann") (lit "17.06.2024")]
              eq_refl eq_refl eq_refl eq_refl)
    as [H | (adj & E & Hw & _)]; [discriminate H|].
  exists adj. split; [now rewrite <- E | exact Hw].
Defined.

(** Each item adds nothing or one entry under its own key. *)
Lemma upcoming_item_shape (sty : year_style) (today : datetime) (days : Z)
    (item : list Z * Record_) (l : list entry) :
  upcoming_item sty today days item = Return l ->
  l = [] \/ (exists e, l = [e] /\ Contact e = item.1
                      /\ is_Some (birthday item.2)).
Proof.
  unfold upcoming_item. destruct (birthday item.2) as [b|];
    [|intros [= <-]; now left].
  destruct (replace_year b (year today)) as [t|e]; cbn [mbind result_bind];
    [|discriminate].
  destruct (if datetime_lt t today then replace_year b (year today + 1)
            else Return t) as [c|e]; cbn [mbind result_bind]; [|discriminate].
  destruct ((0 <=? sub_days c today) && (sub_days c today <=? days));
    [|intros [= <-]; now left].
  destruct (adjust_for_weekend c) as [a|e]; cbn [mbind result_bind];
    [|discriminate].
  intros [= <-]. right. eexists. repeat split. now eexists.
Qed.

Lemma upcoming_loop_shape (sty : year_style) (today : datetime) (days : Z)
    (items : list (list Z * Record_)) (acc l : list entry) :
  upcoming_loop sty today days items acc = Return l ->
  exists new, l = acc ++ new
    /\ sublist (map Contact new) (keys items)
    /\ Forall (fun e => exists r, (Contact e, r) ∈ items
                                  /\ is_Some (birthday r)) new.
Proof.
  revert acc. induction items as [|item items IH]; intros acc;
    cbn [upcoming_loop].
  - intros [= <-]. exists []. rewrite app_nil_r. repeat split; constructor.
  - destruct (upcoming_item sty today days item) as [new1|e] eqn:E1;
      cbn [mbind result_bind]; [|discriminate].
    intros H. destruct (IH _ H) as (new & -> & Hsub & Hall).
    exists (new1 ++ new). split; [now rewrite app_assoc|].
    assert (Forall (fun e => exists r, (Contact e, r) ∈ item :: items
                                       /\ is_Some (birthday r)) new) as Hall'.
    { eapply Forall_impl; [exact Hall|]. intros e (r & Hin & Hb).
      exists r. split; [now right | exact Hb]. }
    destruct (upcoming_item_shape _ _ _ _ _ E1) as [-> | (e & -> & Hc & Hb)].
    + split; [|exact Hall']. cbn [app keys map]. now apply sublist_cons.
    + split.
      * cbn [app keys map]. rewrite Hc. now apply sublist_skip.
      * cbn [app]. constructor; [|exact Hall'].
        exists item.2. split; [|exact Hb]. rewrite Hc. destruct item. left.
Qed.

(** X11: the list that [get_upcoming_birthdays] returns follows the
    iteration order of the book, whatever the dates: the names of its
    entries are a subsequence of the keys of the book, and each entry comes
    from a record of the book under that name which has a birthday. *)
Theorem upcoming_birthdays_order (sty : year_style) (today : datetime)
    (book : list (list Z * Record_)) (days : Z) (l : list entry) :
  get_upcoming_birthdays sty today book days = Return l ->
  sublist (map Contact l) (keys book)
  /\ Forall (fun e => exists r, (Contact e, r) ∈ book
                                /\ is_Some (birthday r)) l.
Proof.
  intros H. apply upcoming_loop_shape in H as (new & -> & Hsub & Hall).
  now split.
Qed.

Lemma upcoming_birthdays_order_witness :
  let book := [(lit "Ann", mk_Record (lit "Ann") [] (Some (mk_datetime 1985 6 15 0 0 0 0)));
               (lit "Bob", new_Record (lit "Bob"));
               (lit "Eve", mk_Record (lit "Eve") [] (Some (mk_datetime 1990 6 12 0 0 0 0)))] in
  sublist [lit "Ann"; lit "Eve"] (keys book).
Proof.
  intros book.
  exact (proj1 (upcoming_birthdays_order YearUnpadded
                  (mk_datetime 2024 6 10 10 0 0 0) book 7
                  [mk_entry (lit "Ann") (lit "17.06.2024");
                   mk_entry (lit "Eve") (lit "12.06.2024")] eq_refl)).
Defined.

Lemma upcoming_total_witness :
  let book := [(lit "Ann", mk_Record (lit "Ann") []
                             (Some (mk_datetime 1985 6 15 0 0 0 0)));
               (lit "Bob", new_Record (lit "Bob"))] in
  exists l,
    get_upcoming_birthdays YearUnpadded (mk_datetime 2024 6 10 10 0 0 0) book 7
    = Return l.
Proof.
  intros book.
  apply (upcoming_total YearUnpadded (mk_datetime 2024 6 10 10 0 0 0) 7 book).
  - reflexivity.
  - cbn. lia.
  - constructor; [|constructor; [|constructor]]; cbn [snd birthday new_Record];
      intros b [= <-]; (split; [reflexivity | intros [H _]; discriminate H]).
Defined.

Lemma upcoming_item_at_midnight_witness :
  upcoming_item YearUnpadded (mk_datetime 2024 6 10 0 0 0 0) 7
    (lit "Bob", mk_Record (lit "Bob") [] (Some (mk_datetime 1990 6 10 0 0 0 0)))
  = Return [mk_entry (lit "Bob") (lit "10.06.2024")].
Proof.
  rewrite (upcoming_item_at_midnight YearUnpadded
             (mk_datetime 2024 6 10 0 0 0 0) (mk_datetime 1990 6 10 0 0 0 0) 7
             (lit "Bob")
             (mk_Record (lit "Bob") [] (Some (mk_datetime 1990 6 10 0 0 0 0)))
             eq_refl eq_refl ltac:(cbn; lia) eq_refl
             ltac:(intros [H _]; discriminate H) eq_refl).
  reflexivity.
Defined.

Lemma birthday_today_not_listed_witness :
  let bob := mk_Record (lit "Bob") [] (Some (mk_datetime 1990 6 10 0 0 0 0)) in
  let today := mk_datetime 2024 6 10 10 0 0 0 in
  upcoming_item YearUnpadded today 7 (lit "Bob", bob) = Return []
  \/ exists e, upcoming_item YearUnpadded today 7 (lit "Bob", bob) = Raise e.
Proof.
  intros bob today.
  apply (birthday_today_not_listed YearUnpadded today
           (mk_datetime 1990 6 10 0 0 0 0) 7 (lit "Bob") bob);
    try reflexivity; cbn; lia.
Defined.

Lemma upcoming_leap_day_raises_witness :
  let ann := mk_Record (lit "Ann") [] (Some (mk_datetime 2024 2 29 0 0 0 0)) in
  exists e,
    get_upcoming_birthdays YearUnpadded (mk_datetime 2025 3 1 10 0 0 0)
      [(lit "Ann", ann)] 7 = Raise e.
Proof.
  intros ann.
  apply (upcoming_leap_day_raises YearUnpadded (mk_datetime 2025 3 1 10 0 0 0)
           7 [(lit "Ann", ann)] (lit "Ann") ann
           (mk_datetime 2024 2 29 0 0 0 0));
    try reflexivity. left.
Defined.


(** ** The command handlers *)

Lemma dict_get_elem {V} (d : list (list Z * V)) (k : list Z) (v : V) :
  dict_get k d = Some v -> (k, v) ∈ d.
Proof.
  induction d as [|[k' v'] d IH]; cbn [dict_get]; [discriminate|].
  destruct (decide (k' = k)) as [->|E].
  - intros [= ->]. left.
  - intros H. right. now apply IH.
Qed.

Lemma dict_get_in_range (w : World) (n : list Z) (r : nat) :
  wf_World w -> dict_get n (book_data w) = Some r ->
  (r < length (record_objs w))%nat.
Proof.
  intros (Hb & _ & _) Hn. apply dict_get_elem in Hn.
  rewrite Forall_forall in Hb. exact (Hb _ Hn).
Qed.

Lemma dict_get_unshared {V} (d : list (list Z * V)) (k k' : list Z) (v : V) :
  NoDup (map snd d) -> dict_get k d = Some v -> dict_get k' d = Some v ->
  k = k'.
Proof.
  induction d as [|[k0 v0] d IH]; cbn [dict_get map snd]; [discriminate|].
  intros Hd. apply NoDup_cons in Hd as [Hv0 Hd].
  assert (forall k1 v1, dict_get k1 d = Some v1 -> v1 ∈ map snd d) as Hin.
  { intros k1 v1 H1. apply dict_get_elem in H1.
    apply list_elem_of_In, in_map_iff. exists (k1, v1).
    split; [reflexivity | now apply list_elem_of_In]. }
  destruct (decide (k0 = k)) as [->|E]; destruct (decide _) as [E2|E2].
  - intros _ _. exact E2.
  - intros [= ->] H. exfalso. apply Hv0. eapply Hin; eauto.
  - intros H [= ->]. exfalso. apply Hv0. eapply Hin; eauto.
  - now apply IH.
Qed.

Lemma get_record_lookup (w : World) (r : nat) (x : Record_) :
  record_objs w !! r = Some x -> get_record r w = x.
Proof. unfold get_record. now intros ->. Qed.

Lemma record_in_range (w : World) (r : nat) :
  wf_World w -> (r < length (record_objs w))%nat ->
  record_objs w !! r = Some (get_record r w)
  /\ Forall (fun p => (p < length (phone_objs w))%nat) (phones (get_record r w)).
Proof.
  intros (_ & Hr & _) Hlt. destruct (lookup_lt_is_Some_2 _ _ Hlt) as [x Hx].
  rewrite (get_record_lookup _ _ _ Hx). split; [exact Hx|].
  rewrite Forall_forall in Hr. apply Hr. eapply list_elem_of_lookup_2; eauto.
Qed.

(** Phone values of records that only hold old objects survive a growth of
    the store. *)
Lemma phone_values_frame (self : Record_) (h h' : list (list Z)) :
  Forall (fun p => (p < length h)%nat) (phones self) ->
  (forall p, (p < length h)%nat -> h' !! p = h !! p) ->
  phone_values self h' = phone_values self h.
Proof.
  intros Hwf Hh. unfold phone_values. apply map_ext_in. intros p Hp.
  apply Hh. rewrite Forall_forall in Hwf. apply Hwf. now apply list_elem_of_In.
Qed.

(** A method that keeps the old [Phone] objects and leaves the record with
    phones that exist: what the call does to the objects. *)
Lemma call_method_spec {A} (r : nat)
    (m : Record_ -> list (list Z) -> result A * Record_ * list (list Z))
    (w : World) (res : result A) (self' : Record_) (h' : list (list Z)) :
  wf_World w -> (r < length (record_objs w))%nat ->
  m (get_record r w) (phone_objs w) = (res, self', h') ->
  (forall p, (p < length (phone_objs w))%nat -> h' !! p = phone_objs w !! p) ->
  (length (phone_objs w) <= length h')%nat ->
  Forall (fun p => (p < length h')%nat) (phones self') ->
  let w' := mk_World (<[r := self']> (record_objs w)) h' (book_data w) in
  call_method r m w = (res, w')
  /\ wf_World w'
  /\ get_record r w' = self'
  /\ (forall r', r' <> r -> get_record r' w' = get_record r' w).
Proof.
  intros Hwf Hr Hm Hframe Hlen Hp w'. unfold call_method. rewrite Hm.
  split; [reflexivity|]. destruct Hwf as (Hb & Hrs & Hk).
  split; [|split].
  - unfold wf_World, w'. cbn [record_objs phone_objs book_data].
    split; [now rewrite length_insert|]. split; [|exact Hk].
    apply Forall_insert; [|exact Hp].
    eapply Forall_impl; [exact Hrs|]. cbn. intros x Hx.
    eapply Forall_impl; [exact Hx|]. cbn. lia.
  - unfold get_record, w'. cbn [record_objs].
    now rewrite list_lookup_insert_eq.
  - intros r' Hne. unfold get_record, w'. cbn [record_objs].
    now rewrite list_lookup_insert_ne by congruence.
Qed.

Lemma contact_after_call (w w' : World) (n : list Z) (r : nat)
    (self' : Record_) :
  book_data w' = book_data w ->
  dict_get n (book_data w) = Some r -> get_record r w' = self' ->
  contact n w' = Some (name self', phone_values self' (phone_objs w'),
                       birthday self').
Proof.
  intros Hd Hn Hs. unfold contact. now rewrite Hd, Hn, Hs.
Qed.

(** The contacts under other names are not touched, as long as no record is
    shared. *)
Lemma contact_frame (w w' : World) (n n' : list Z) (r : nat) :
  wf_World w -> unshared w ->
  book_data w' = book_data w ->
  dict_get n (book_data w) = Some r ->
  (forall r', r' <> r -> get_record r' w' = get_record r' w) ->
  (forall p, (p < length (phone_objs w))%nat ->
             phone_objs w' !! p = phone_objs w !! p) ->
  n' <> n -> contact n' w' = contact n' w.
Proof.
  intros Hwf Hu Hd Hn Hrec Hframe Hne. unfold contact. rewrite Hd.
  destruct (dict_get n' (book_data w)) as [r'|] eqn:Hn'; [|reflexivity].
  assert (r' <> r) as Hr'.
  { intros ->. apply Hne. eapply dict_get_unshared; eauto. }
  rewrite (Hrec r' Hr'). do 2 f_equal. f_equal.
  apply phone_values_frame; [|exact Hframe].
  apply record_in_range; [exact Hwf|]. eapply dict_get_in_range; eauto.
Qed.

(** [create_record] registers a new, empty record under the name. *)
Lemma create_record_spec (n : list Z) (w : World) :
  wf_World w -> dict_get n (book_data w) = None ->
  let r := length (record_objs w) in
  let w' := (create_record n w).2 in
  (create_record n w).1 = r
  /\ wf_World w'
  /\ (unshared w -> unshared w')
  /\ dict_get n (book_data w') = Some r
  /\ get_record r w' = new_Record n
  /\ phone_objs w' = phone_objs w
  /\ contact n w' = Some (n, [], None)
  /\ (forall n', n' <> n -> contact n' w' = contact n' w).
Proof.
  intros Hwf Hn r w'. pose proof Hwf as (Hb & Hrs & Hk).
  apply dict_get_None in Hn.
  assert (book_data w' = book_data w ++ [(n, r)]) as Hd
    by (unfold w', create_record; cbn; now apply dict_set_new).
  assert (book_data w' = dict_set n r (book_data w)) as Hd0 by reflexivity.
  assert (get_record r w' = new_Record n) as Hg.
  { unfold get_record, w', create_record. cbn [snd record_objs].
    now rewrite list_lookup_middle. }
  assert (forall r', (r' < r)%nat -> get_record r' w' = get_record r' w) as Hold.
  { intros r' Hlt. unfold get_record, w', create_record. cbn [snd record_objs].
    now rewrite lookup_app_l. }
  split; [reflexivity|]. split; [|split; [|split; [|split; [|split; [|split]]]]].
  - unfold wf_World. rewrite Hd. unfold w', create_record.
    cbn [snd record_objs phone_objs]. rewrite length_app. cbn [length].
    split; [|split].
    + apply Forall_app. split; [|repeat constructor; cbn; lia].
      eapply Forall_impl; [exact Hb|]. cbn. lia.
    + apply Forall_app. split; [exact Hrs | repeat constructor].
    + unfold keys. rewrite map_app. apply NoDup_app. split; [exact Hk|].
      split; [|apply NoDup_singleton].
      intros x Hx Hx'. cbn in Hx'. apply list_elem_of_singleton in Hx'.
      subst x. contradiction.
  - unfold unshared. rewrite Hd, map_app. intros Hu. apply NoDup_app.
    split; [exact Hu|]. split; [|apply NoDup_singleton].
    intros x Hx Hx'. cbn in Hx'. apply list_elem_of_singleton in Hx'. subst x.
    apply list_elem_of_In, in_map_iff in Hx as ([k v] & E & Hin).
    cbn in E. subst v. rewrite Forall_forall in Hb.
    apply list_elem_of_In, Hb in Hin. cbn in Hin. unfold r in Hin. lia.
  - unfold w', create_record. cbn [snd book_data]. apply dict_get_set_eq.
  - exact Hg.
  - reflexivity.
  - unfold contact. rewrite Hd0, dict_get_set_eq, Hg. reflexivity.
  - intros n' Hne. unfold contact. rewrite Hd0, dict_get_set_ne by exact Hne.
    destruct (dict_get n' (book_data w)) as [r'|] eqn:Hn'; [|reflexivity].
    rewrite Hold by (eapply dict_get_in_range; eauto). reflexivity.
Qed.

(** [record.add_phone(phone)] with a phone that [Phone] accepts, on a
    record of the book. *)
Lemma call_add_phone (w : World) (n : list Z) (r : nat) (phone v : list Z) :
  wf_World w -> unshared w ->
  dict_get n (book_data w) = Some r -> Phone phone = Return v ->
  exists w',
    call_method r (fun self => add_phone self phone) w = (Return tt, w')
    /\ wf_World w' /\ unshared w'
    /\ book_data w' = book_data w
    /\ contact n w'
       = option_map (fun c : list Z * list (option (list Z)) * option datetime =>
                       (c.1.1, c.1.2 ++ [Some phone], c.2))
                    (contact n w)
    /\ (forall n', n' <> n -> contact n' w' = contact n' w).
Proof.
  intros Hwf Hu Hn HP.
  pose proof (dict_get_in_range w n r Hwf Hn) as Hr.
  destruct (record_in_range w r Hwf Hr) as [_ Hps].
  destruct (add_phone_returns (get_record r w) phone (phone_objs w) v HP Hps)
    as (Ea & Hv & Hps' & Hframe).
  destruct (call_method_spec r (fun self => add_phone self phone) w _ _ _
              Hwf Hr Ea Hframe) as (Ec & Hwf' & Hg & Hother); [|exact Hps'|].
  { rewrite length_app. lia. }
  eexists. split; [exact Ec|]. split; [exact Hwf'|]. split; [exact Hu|].
  split; [reflexivity|]. split.
  - unfold contact at 1. cbn [book_data]. rewrite Hn, Hg.
    unfold contact. rewrite Hn. cbn [option_map fst snd name birthday phone_objs].
    now rewrite Hv.
  - intros n' Hne. eapply (contact_frame w _ n n' r); eauto.
Qed.

(** What [add_contact] does with a phone that [Phone] accepts. *)
Lemma add_contact_returns (n phone : list Z) (rest : list (list Z))
    (w : World) (v : list Z) :
  wf_World w -> unshared w -> Phone phone = Return v ->
  exists w',
    Handlers.add_contact (n :: phone :: rest) w
    = (Return (Some (match contact n w with
                     | Some _ => lit "Contact updated."
                     | None => lit "Contact added."
                     end)), w')
    /\ wf_World w' /\ unshared w'
    /\ contact n w'
       = Some (match contact n w with
               | Some (n0, ps, b) => (n0, ps ++ [Some phone], b)
               | None => (n, [Some phone], None)
               end)
    /\ (forall n', n' <> n -> contact n' w' = contact n' w).
Proof.
  intros Hwf Hu HP. pose proof (Phone_nonempty _ _ HP) as Hne.
  unfold Handlers.add_contact, input_error, Handlers.add_contact_body.
  destruct phone as [|c phone']; [contradiction|]. set (phone := c :: phone') in *.
  destruct (dict_get n (book_data w)) as [r|] eqn:Hn.
  - destruct (call_add_phone w n r phone v Hwf Hu Hn HP)
      as (w' & Ec & Hwf' & Hu' & _ & Hc & Hframe).
    rewrite Ec. cbn [mbind result_bind]. exists w'.
    assert (contact n w = Some (name (get_record r w),
              phone_values (get_record r w) (phone_objs w),
              birthday (get_record r w))) as Hcw
      by (unfold contact; now rewrite Hn).
    rewrite Hcw in Hc |- *. cbn [option_map fst snd] in Hc.
    split; [reflexivity|]. split; [exact Hwf'|]. split; [exact Hu'|].
    split; [exact Hc | exact Hframe].
  - destruct (create_record_spec n w Hwf Hn)
      as (Er & Hwf1 & Hu1 & Hn1 & _ & _ & Hc1 & Hframe1).
    destruct (create_record n w) as [r1 w1] eqn:Ecr. cbn [fst snd] in *.
    subst r1. specialize (Hu1 Hu).
    destruct (call_add_phone w1 n _ phone v Hwf1 Hu1 Hn1 HP)
      as (w' & Ec & Hwf' & Hu' & _ & Hc & Hframe).
    rewrite Ec. cbn [mbind result_bind]. exists w'.
    assert (contact n w = None) as Hcw by (unfold contact; now rewrite Hn).
    rewrite Hcw.
    split; [reflexivity|]. split; [exact Hwf'|]. split; [exact Hu'|]. split.
    + rewrite Hc, Hc1. reflexivity.
    + intros n' Hn'. now rewrite Hframe, Hframe1.
Qed.

Lemma wf_empty_World : wf_World empty_World /\ unshared empty_World.
Proof.
  unfold wf_World, unshared, empty_World. cbn.
  repeat split; constructor.
Qed.

(** X16: [add_contact] with a name and a phone that [Phone] accepts
    returns [Contact added.] for a name that the book does not have and
    [Contact updated.] otherwise. The contact then has the phones it had
    followed by the new one, other words of the command are ignored, and the
    other contacts are not touched. *)
Theorem add_contact_valid (n phone : list Z) (rest : list (list Z))
    (w : World) (v : list Z) :
  wf_World w -> unshared w -> Phone phone = Return v ->
  exists w',
    Handlers.add_contact (n :: phone :: rest) w
    = (Return (Some (match contact n w with
                     | Some _ => lit "Contact updated."
                     | None => lit "Contact added."
                     end)), w')
    /\ wf_World w' /\ unshared w'
    /\ contact n w'
       = Some (match contact n w with
               | Some (n0, ps, b) => (n0, ps ++ [Some phone], b)
               | None => (n, [Some phone], None)
               end)
    /\ (forall n', n' <> n -> contact n' w' = contact n' w).
Proof. apply add_contact_returns. Qed.

Lemma add_contact_valid_witness :
  exists w',
    Handlers.add_contact [lit "Bob"; lit "1234567890"] empty_World
    = (Return (Some (lit "Contact added.")), w')
    /\ contact (lit "Bob") w'
       = Some (lit "Bob", [Some (lit "1234567890")], None).
Proof.
  destruct (add_contact_valid (lit "Bob") (lit "1234567890") [] empty_World
              (lit "1234567890") (proj1 wf_empty_World) (proj2 wf_empty_World)
              eq_refl) as (w' & E & _ & _ & Hc & _).
  exists w'. split; [exact E | exact Hc].
Defined.

(** A call that leaves the record and the store as they were leaves the
    world as it was. *)
Lemma call_method_same {A} (r : nat)
    (m : Record_ -> list (list Z) -> result A * Record_ * list (list Z))
    (w : World) (res : result A) :
  wf_World w -> (r < length (record_objs w))%nat ->
  m (get_record r w) (phone_objs w) = (res, get_record r w, phone_objs w) ->
  call_method r m w = (res, w).
Proof.
  intros Hwf Hr Hm. unfold call_method. rewrite Hm.
  destruct (record_in_range w r Hwf Hr) as [Hl _].
  rewrite list_insert_id by exact Hl. now destruct w.
Qed.

(** X17: [add_contact] with a non-empty phone that [Phone] refuses raises
    the [CheckPhoneNumber] of [Phone]: [input_error] does not turn it into a
    message. A contact that the book has is left as it was; for a name that
    the book does not have, the new record has already been added and stays
    in the book, without phone and birthday. *)
Theorem add_contact_invalid (n phone : list Z) (rest : list (list Z))
    (w : World) (e : exn) :
  wf_World w -> phone <> [] -> Phone phone = Raise e ->
  exists w',
    Handlers.add_contact (n :: phone :: rest) w = (Raise e, w')
    /\ (exists msg, e = CheckPhoneNumber msg)
    /\ wf_World w'
    /\ (forall c, contact n w = Some c -> w' = w)
    /\ (contact n w = None -> contact n w' = Some (n, [], None))
    /\ (forall n', n' <> n -> contact n' w' = contact n' w).
Proof.
  intros Hwf Hne HP.
  destruct (Phone_raises_CheckPhoneNumber phone e HP) as [msg ->].
  unfold Handlers.add_contact, input_error, Handlers.add_contact_body.
  destruct phone as [|c phone']; [contradiction|]. set (phone := c :: phone') in *.
  assert (forall w1 r, wf_World w1 -> (r < length (record_objs w1))%nat ->
            call_method r (fun self => add_phone self phone) w1
            = (Raise (CheckPhoneNumber msg), w1)) as Hcall.
  { intros w1 r Hwf1 Hr. apply call_method_same; [assumption..|].
    unfold add_phone. now rewrite HP. }
  destruct (dict_get n (book_data w)) as [r|] eqn:Hn.
  - rewrite Hcall by (assumption || eapply dict_get_in_range; eauto).
    cbn [mbind result_bind]. exists w.
    split; [reflexivity|]. split; [now exists msg|]. split; [exact Hwf|].
    split; [reflexivity|]. split; [|reflexivity].
    unfold contact. rewrite Hn. discriminate.
  - destruct (create_record_spec n w Hwf Hn)
      as (Er & Hwf1 & _ & Hn1 & _ & _ & Hc1 & Hframe1).
    destruct (create_record n w) as [r1 w1] eqn:Ecr. cbn [fst snd] in *.
    subst r1.
    rewrite Hcall; [|exact Hwf1|exact (dict_get_in_range w1 n _ Hwf1 Hn1)].
    cbn [mbind result_bind]. exists w1.
    split; [reflexivity|]. split; [now exists msg|]. split; [exact Hwf1|].
    split; [|split; [intros _; exact Hc1 | exact Hframe1]].
    intros c0 Hc0. unfold contact in Hc0. rewrite Hn in Hc0. discriminate.
Qed.

Lemma add_contact_invalid_witness :
  exists w',
    Handlers.add_contact [lit "Bob"; lit "12345"] empty_World
    = (Raise (length_error (lit "12345")), w')
    /\ contact (lit "Bob") w' = Some (lit "Bob", [], None).
Proof.
  destruct (add_contact_invalid (lit "Bob") (lit "12345") [] empty_World
              (length_error (lit "12345")) (proj1 wf_empty_World)
              ltac:(discriminate) eq_refl) as (w' & E & _ & _ & _ & Hc & _).
  exists w'. split; [exact E | exact (Hc eq_refl)].
Defined.

(** X18: a handler that is given fewer arguments than it unpacks returns
    the message of [input_error] for the [ValueError] of the unpacking, and
    leaves the book as it was. *)
Theorem handlers_too_few_arguments (sty : year_style) (args : list (list Z))
    (w : World) :
  let incorrect := (Return (Some (lit "Incorrect value.")), w) in
  ((length args < 2)%nat ->
     Handlers.add_contact args w = incorrect
     /\ Handlers.change_contact args w = incorrect
     /\ Handlers.add_birthday args w = incorrect)
  /\ (args = [] ->
        Handlers.get_phone sty args w = incorrect
        /\ Handlers.show_birthday sty args w = incorrect).
Proof.
  intros incorrect. split.
  - intros Hl. destruct args as [|a [|b args]]; cbn [length] in Hl; try lia;
      repeat split; reflexivity.
  - intros ->. split; reflexivity.
Qed.

Lemma handlers_too_few_arguments_witness :
  Handlers.add_contact [lit "Bob"] empty_World
  = (Return (Some (lit "Incorrect value.")), empty_World).
Proof.
  exact (proj1 (proj1 (handlers_too_few_arguments YearUnpadded [lit "Bob"]
                         empty_World) ltac:(cbn; lia))).
Defined.

(** X19: for a name that the book does not have, [get_phone] and
    [show_birthday] return [Contact not found!] and [change_contact] returns
    [Contact not found.], whatever the phone is; the book is left as it
    was. *)
Theorem handlers_unknown_contact (sty : year_style) (n : list Z)
    (rest : list (list Z)) (w : World) :
  contact n w = None ->
  Handlers.get_phone sty (n :: rest) w
  = (Return (Some (lit "Contact not found!")), w)
  /\ Handlers.show_birthday sty (n :: rest) w
     = (Return (Some (lit "Contact not found!")), w)
  /\ (forall phone, Handlers.change_contact (n :: phone :: rest) w
                    = (Return (Some (lit "Contact not found.")), w)).
Proof.
  intros Hc. unfold contact in Hc.
  destruct (dict_get n (book_data w)) as [r|] eqn:Hn; [discriminate|].
  unfold Handlers.get_phone, Handlers.show_birthday, Handlers.change_contact,
    input_error, Handlers.get_phone_body, Handlers.show_birthday_body,
    Handlers.change_contact_body.
  rewrite Hn. repeat split.
Qed.

Lemma handlers_unknown_contact_witness :
  Handlers.get_phone YearUnpadded [lit "Bob"] empty_World
  = (Return (Some (lit "Contact not found!")), empty_World).
Proof.
  exact (proj1 (handlers_unknown_contact YearUnpadded (lit "Bob") []
                  empty_World eq_refl)).
Defined.

(** A method call on the record of a contact, as the book shows it. *)
Lemma call_method_contact {A} (w : World) (n : list Z) (r : nat)
    (m : Record_ -> list (list Z) -> result A * Record_ * list (list Z))
    (res : result A) (self' : Record_) (h' : list (list Z)) :
  wf_World w -> unshared w -> dict_get n (book_data w) = Some r ->
  m (get_record r w) (phone_objs w) = (res, self', h') ->
  (forall p, (p < length (phone_objs w))%nat -> h' !! p = phone_objs w !! p) ->
  (length (phone_objs w) <= length h')%nat ->
  Forall (fun p => (p < length h')%nat) (phones self') ->
  exists w',
    call_method r m w = (res, w')
    /\ wf_World w' /\ unshared w'
    /\ book_data w' = book_data w /\ phone_objs w' = h'
    /\ get_record r w' = self'
    /\ contact n w' = Some (name self', phone_values self' h', birthday self')
    /\ (forall n', n' <> n -> contact n' w' = contact n' w).
Proof.
  intros Hwf Hu Hn Hm Hframe Hlen Hps.
  pose proof (dict_get_in_range w n r Hwf Hn) as Hr.
  destruct (call_method_spec r m w _ _ _ Hwf Hr Hm Hframe Hlen Hps)
    as (Ec & Hwf' & Hg & Hother).
  eexists. split; [exact Ec|]. split; [exact Hwf'|]. split; [exact Hu|].
  split; [reflexivity|]. split; [reflexivity|]. split; [exact Hg|]. split.
  - unfold contact at 1. cbn [book_data phone_objs]. now rewrite Hn, Hg.
  - intros n' Hne. eapply (contact_frame w _ n n' r); eauto.
Qed.

(** X20: [change_contact] for a contact that the book has empties the
    record's list of phones before it builds the new [Phone]. When [Phone]
    accepts the text the contact is left with that one phone and the handler
    returns [Contact changed.]; when [Phone] refuses it the exception
    escapes and the contact is left without any phone. Name, birthday and
    the other contacts are not touched. *)
Theorem change_contact_spec (n phone : list Z) (rest : list (list Z))
    (w : World) (n0 : list Z) (ps : list (option (list Z)))
    (b : option datetime) :
  wf_World w -> unshared w -> contact n w = Some (n0, ps, b) ->
  exists w',
    Handlers.change_contact (n :: phone :: rest) w
    = (match Phone phone with
       | Return _ => Return (Some (lit "Contact changed."))
       | Raise e => Raise e
       end, w')
    /\ wf_World w' /\ unshared w'
    /\ contact n w'
       = Some (n0, match Phone phone with
                   | Return _ => [Some phone]
                   | Raise _ => []
                   end, b)
    /\ (forall n', n' <> n -> contact n' w' = contact n' w).
Proof.
  intros Hwf Hu Hc. unfold contact in Hc.
  destruct (dict_get n (book_data w)) as [r|] eqn:Hn; [|discriminate].
  injection Hc as <- <- <-.
  unfold Handlers.change_contact, input_error, Handlers.change_contact_body.
  rewrite Hn.
  pose proof (dict_get_in_range w n r Hwf Hn) as Hr.
  destruct (call_method_contact w n r
              (fun self h => (Return tt, remove_all_phones self, h))
              (Return tt) (remove_all_phones (get_record r w)) (phone_objs w)
              Hwf Hu Hn eq_refl ltac:(auto) ltac:(lia) ltac:(constructor))
    as (w1 & -> & Hwf1 & Hu1 & Hd1 & Hh1 & Hg1 & Hc1 & Hframe1).
  assert (dict_get n (book_data w1) = Some r) as Hn1 by (now rewrite Hd1).
  destruct (Phone phone) as [v|e] eqn:HP.
  - destruct (call_add_phone w1 n r phone v Hwf1 Hu1 Hn1 HP)
      as (w2 & -> & Hwf2 & Hu2 & _ & Hc2 & Hframe2).
    cbn [mbind result_bind]. exists w2.
    split; [reflexivity|]. split; [exact Hwf2|]. split; [exact Hu2|]. split.
    + rewrite Hc2, Hc1. reflexivity.
    + intros n' Hne. now rewrite Hframe2, Hframe1.
  - destruct (Phone_raises_CheckPhoneNumber phone e HP) as [msg ->].
    rewrite (call_method_same r (fun self => add_phone self phone) w1
               (Raise (CheckPhoneNumber msg)) Hwf1)
      by (rewrite ?Hd1; try (eapply dict_get_in_range; eauto);
          unfold add_phone; now rewrite HP).
    cbn [mbind result_bind]. exists w1.
    split; [reflexivity|]. split; [exact Hwf1|]. split; [exact Hu1|].
    split; [exact Hc1 | exact Hframe1].
Qed.

Lemma change_contact_spec_witness :
  let w := mk_World [mk_Record (lit "Bob") [0%nat] None] [lit "1234567890"]
                    [(lit "Bob", 0%nat)] in
  exists w',
    Handlers.change_contact [lit "Bob"; lit "12345"] w
    = (Raise (length_error (lit "12345")), w')
    /\ contact (lit "Bob") w' = Some (lit "Bob", [], None).
Proof.
  intros w.
  assert (wf_World w /\ unshared w) as [Hwf Hu].
  { unfold wf_World, unshared, w. cbn.
    repeat split; repeat constructor; cbn; try lia; apply not_elem_of_nil. }
  destruct (change_contact_spec (lit "Bob") (lit "12345") [] w (lit "Bob")
              [Some (lit "1234567890")] None Hwf Hu eq_refl)
    as (w' & E & _ & _ & Hc & _).
  exists w'. split; [exact E | exact Hc].
Defined.

(** [Birthday] on a text in the padded format, and what [strftime] makes of
    the date. *)
Lemma Birthday_dmY_text (s : list Z) :
  is_dmY_text s = true ->
  exists dt,
    Birthday s = Return dt
    /\ strftime_dmY YearZeroPadded dt = s
    /\ (1000 <= dmY_year s -> forall sty, strftime_dmY sty dt = s).
Proof.
  intros Hs.
  apply is_dmY_text_inv in Hs
    as (d1 & d2 & m1 & m2 & y1 & y2 & y3 & y4 & -> & Hc & Hv).
  exists (mk_datetime (num4 y1 y2 y3 y4) (num2 m1 m2) (num2 d1 d2) 0 0 0 0).
  unfold Birthday. rewrite (parse_dmY_text _ _ _ _ _ _ _ _ Hc Hv).
  repeat match goal with
         | H : Forall _ (_ :: _) |- _ => apply Forall_cons in H as [? H]
         end.
  assert (strftime_dmY YearZeroPadded
            (mk_datetime (num4 y1 y2 y3 y4) (num2 m1 m2) (num2 d1 d2) 0 0 0 0)
          = [d1; d2; 46; m1; m2; 46; y1; y2; y3; y4]) as Hpad.
  { unfold strftime_dmY, year_text. cbn [year month day].
    now rewrite !format_num2, format_num4 by assumption. }
  split; [reflexivity|]. split; [exact Hpad|].
  cbn [dmY_year]. intros Hy sty. rewrite <- Hpad.
  unfold strftime_dmY. cbn [year month day]. do 4 f_equal.
  apply valid_date_spec in Hv.
  rewrite !year_text_four_digits by lia. reflexivity.
Qed.

Lemma Birthday_raises_ValueError (s : list Z) (e : exn) :
  Birthday s = Raise e ->
  e = ValueError (lit "Invalid date format. Use DD.MM.YYYY").
Proof.
  unfold Birthday. destruct (strptime_dmY s); [discriminate|]. congruence.
Qed.

(** What [add_birthday] the handler does once the arguments are unpacked
    and the record is at hand. *)
Lemma call_add_birthday (w : World) (n : list Z) (r : nat) (d : list Z) :
  wf_World w -> unshared w -> dict_get n (book_data w) = Some r ->
  exists w',
    call_method r (fun self h => let '(res, self') := add_birthday self d in
                                 (res, self', h)) w
    = (match Birthday d with Return _ => Return tt | Raise e => Raise e end, w')
    /\ wf_World w' /\ unshared w'
    /\ book_data w' = book_data w /\ phone_objs w' = phone_objs w
    /\ (forall e, Birthday d = Raise e -> w' = w)
    /\ (forall dt, Birthday d = Return dt ->
          birthday (get_record r w') = Some dt
          /\ contact n w'
             = option_map (fun c : list Z * list (option (list Z))
                                   * option datetime => (c.1, Some dt))
                          (contact n w))
    /\ (forall n', n' <> n -> contact n' w' = contact n' w).
Proof.
  intros Hwf Hu Hn.
  pose proof (dict_get_in_range w n r Hwf Hn) as Hr.
  destruct (record_in_range w r Hwf Hr) as [_ Hps].
  destruct (Birthday d) as [dt|e] eqn:HB.
  - destruct (call_method_contact w n r
                (fun self h => let '(res, self') := add_birthday self d in
                               (res, self', h))
                (Return tt)
                (mk_Record (name (get_record r w)) (phones (get_record r w))
                           (Some dt))
                (phone_objs w) Hwf Hu Hn)
      as (w' & Ec & Hwf' & Hu' & Hd' & Hh' & Hg' & Hc' & Hframe');
      [unfold add_birthday; now rewrite HB | auto | lia | exact Hps |].
    exists w'. split; [exact Ec|]. split; [exact Hwf'|]. split; [exact Hu'|].
    split; [exact Hd'|]. split; [exact Hh'|]. split; [discriminate|].
    split; [|exact Hframe']. intros dt' [= <-]. split; [now rewrite Hg'|].
    rewrite Hc'. unfold contact. rewrite Hn. reflexivity.
  - exists w. split.
    + apply call_method_same; [assumption..|]. unfold add_birthday.
      now rewrite HB.
    + split; [exact Hwf|]. split; [exact Hu|]. repeat split; discriminate.
Qed.

(** X21: after [add_birthday] with a date text in the padded format
    DD.MM.YYYY whose year is 1000 or later, [show_birthday] for that name
    returns the same text; a name that the book does not have gets a new
    record on the way. The other contacts are not touched. *)
Theorem add_birthday_show_birthday (sty : year_style) (n d : list Z)
    (rest : list (list Z)) (w : World) :
  wf_World w -> unshared w ->
  is_dmY_text d = true -> 1000 <= dmY_year d ->
  exists w',
    Handlers.add_birthday (n :: d :: rest) w
    = (Return (Some (match contact n w with
                     | Some _ => lit "Contact birthday updated."
                     | None => lit "Contact added. Birthday updated."
                     end)), w')
    /\ wf_World w' /\ unshared w'
    /\ Handlers.show_birthday sty [n] w' = (Return (Some d), w')
    /\ (forall n', n' <> n -> contact n' w' = contact n' w).
Proof.
  intros Hwf Hu Hd Hy.
  destruct (Birthday_dmY_text d Hd) as (dt & HB & _ & Hfmt).
  specialize (Hfmt Hy sty).
  assert (d <> []) as Hne by (intros ->; discriminate Hd).
  assert (forall w1 r, wf_World w1 -> unshared w1 ->
            dict_get n (book_data w1) = Some r ->
            exists w',
              call_method r (fun self h =>
                               let '(res, self') := add_birthday self d in
                               (res, self', h)) w1 = (Return tt, w')
              /\ wf_World w' /\ unshared w'
              /\ Handlers.show_birthday sty [n] w' = (Return (Some d), w')
              /\ (forall n', n' <> n -> contact n' w' = contact n' w1)) as Hcall.
  { intros w1 r Hwf1 Hu1 Hn1.
    destruct (call_add_birthday w1 n r d Hwf1 Hu1 Hn1)
      as (w' & Ec & Hwf' & Hu' & Hd' & _ & _ & Hok & Hframe).
    rewrite HB in Ec. destruct (Hok dt HB) as [Hb _].
    exists w'. split; [exact Ec|]. split; [exact Hwf'|]. split; [exact Hu'|].
    split; [|exact Hframe].
    unfold Handlers.show_birthday, input_error, Handlers.show_birthday_body.
    now rewrite Hd', Hn1, Hb, Hfmt. }
  unfold Handlers.add_birthday, input_error, Handlers.add_birthday_body.
  destruct d as [|c d']; [contradiction|]. set (d := c :: d') in *.
  destruct (dict_get n (book_data w)) as [r|] eqn:Hn.
  - assert (contact n w = Some (name (get_record r w),
              phone_values (get_record r w) (phone_objs w),
              birthday (get_record r w))) as ->
      by (unfold contact; now rewrite Hn).
    destruct (Hcall w r Hwf Hu Hn) as (w' & -> & Hwf' & Hu' & Hs & Hframe).
    cbn [mbind result_bind]. exists w'.
    split; [reflexivity|]. split; [exact Hwf'|]. split; [exact Hu'|].
    split; [exact Hs | exact Hframe].
  - assert (contact n w = None) as -> by (unfold contact; now rewrite Hn).
    destruct (create_record_spec n w Hwf Hn)
      as (Er & Hwf1 & Hu1 & Hn1 & _ & _ & _ & Hframe1).
    destruct (create_record n w) as [r1 w1] eqn:Ecr. cbn [fst snd] in *.
    subst r1.
    destruct (Hcall w1 _ Hwf1 (Hu1 Hu) Hn1) as (w' & -> & Hwf' & Hu' & Hs & Hframe).
    cbn [mbind result_bind]. exists w'.
    split; [reflexivity|]. split; [exact Hwf'|]. split; [exact Hu'|].
    split; [exact Hs|]. intros n' Hn'. now rewrite Hframe, Hframe1.
Qed.

Lemma add_birthday_show_birthday_witness :
  exists w',
    Handlers.add_birthday [lit "Bob"; lit "15.06.1990"] empty_World
    = (Return (Some (lit "Contact added. Birthday updated.")), w')
    /\ Handlers.show_birthday YearUnpadded [lit "Bob"] w'
       = (Return (Some (lit "15.06.1990")), w').
Proof.
  destruct (add_birthday_show_birthday YearUnpadded (lit "Bob")
              (lit "15.06.1990") [] empty_World (proj1 wf_empty_World)
              (proj2 wf_empty_World) eq_refl ltac:(vm_compute; discriminate))
    as (w' & E & _ & _ & Hs & _).
  exists w'. split; [exact E | exact Hs].
Defined.

(** X22: [add_birthday] with a non-empty text that [Birthday] refuses
    returns [Incorrect value.]. A contact that the book has keeps its
    birthday and its phones; for a name that the book does not have, the new
    record has already been added and stays in the book, without phone and
    birthday. *)
Theorem add_birthday_invalid (n d : list Z) (rest : list (list Z))
    (w : World) (e : exn) :
  wf_World w -> d <> [] -> Birthday d = Raise e ->
  exists w',
    Handlers.add_birthday (n :: d :: rest) w
    = (Return (Some (lit "Incorrect value.")), w')
    /\ wf_World w'
    /\ (forall c, contact n w = Some c -> w' = w)
    /\ (contact n w = None -> contact n w' = Some (n, [], None))
    /\ (forall n', n' <> n -> contact n' w' = contact n' w).
Proof.
  intros Hwf Hne HB. pose proof (Birthday_raises_ValueError d e HB) as ->.
  unfold Handlers.add_birthday, input_error, Handlers.add_birthday_body.
  destruct d as [|c d']; [contradiction|]. set (d := c :: d') in *.
  assert (forall w1 r, wf_World w1 -> (r < length (record_objs w1))%nat ->
            call_method r (fun self h =>
                             let '(res, self') := add_birthday self d in
                             (res, self', h)) w1
            = (Raise (ValueError (lit "Invalid date format. Use DD.MM.YYYY")),
               w1)) as Hcall.
  { intros w1 r Hwf1 Hr. apply call_method_same; [assumption..|].
    unfold add_birthday. now rewrite HB. }
  unfold contact.
  destruct (dict_get n (book_data w)) as [r|] eqn:Hn.
  - rewrite Hcall; [|exact Hwf|exact (dict_get_in_range w n r Hwf Hn)].
    cbn [mbind result_bind]. exists w.
    split; [reflexivity|]. split; [exact Hwf|].
    split; [reflexivity|]. split; [discriminate | reflexivity].
  - destruct (create_record_spec n w Hwf Hn)
      as (Er & Hwf1 & _ & Hn1 & _ & _ & Hc1 & Hframe1).
    destruct (create_record n w) as [r1 w1] eqn:Ecr. cbn [fst snd] in *.
    subst r1.
    rewrite Hcall; [|exact Hwf1|exact (dict_get_in_range w1 n _ Hwf1 Hn1)].
    cbn [mbind result_bind]. exists w1.
    split; [reflexivity|]. split; [exact Hwf1|].
    split; [discriminate|]. split; [intros _; exact Hc1|].
    intros n' Hn'. specialize (Hframe1 n' Hn'). unfold contact in Hframe1.
    exact Hframe1.
Qed.

Lemma add_birthday_invalid_witness :
  exists w',
    Handlers.add_birthday [lit "Bob"; lit "29.02.2023"] empty_World
    = (Return (Some (lit "Incorrect value.")), w')
    /\ contact (lit "Bob") w' = Some (lit "Bob", [], None).
Proof.
  destruct (add_birthday_invalid (lit "Bob") (lit "29.02.2023") [] empty_World
              (ValueError (lit "Invalid date format. Use DD.MM.YYYY"))
              (proj1 wf_empty_World) ltac:(discriminate) eq_refl)
    as (w' & E & _ & _ & Hc & _).
  exists w'. split; [exact E | exact (Hc eq_refl)].
Defined.

(** The decorator does not touch the world. *)
Lemma input_error_world (func : World -> result (option (list Z)) * World)
    (w : World) :
  (input_error func w).2 = (func w).2.
Proof.
  unfold input_error. destruct (func w) as [[a|[m|m|m]] w']; reflexivity.
Qed.

Lemma call_add_phone_wf (w : World) (n : list Z) (r : nat) (phone : list Z) :
  wf_World w -> unshared w -> dict_get n (book_data w) = Some r ->
  let w' := (call_method r (fun self => add_phone self phone) w).2 in
  wf_World w' /\ unshared w'.
Proof.
  intros Hwf Hu Hn w'. subst w'. destruct (Phone phone) as [v|e] eqn:HP.
  - destruct (call_add_phone w n r phone v Hwf Hu Hn HP)
      as (w' & -> & Hwf' & Hu' & _). now split.
  - rewrite (call_method_same r (fun self => add_phone self phone) w (Raise e) Hwf).
    + now split.
    + eapply dict_get_in_range; eauto.
    + unfold add_phone. now rewrite HP.
Qed.

(** The handlers keep the book well formed and its records unshared. *)
Lemma handlers_wf (sty : year_style) (args : list (list Z)) (w : World) :
  wf_World w -> unshared w ->
  (wf_World (Handlers.add_contact args w).2
   /\ unshared (Handlers.add_contact args w).2)
  /\ (wf_World (Handlers.change_contact args w).2
      /\ unshared (Handlers.change_contact args w).2)
  /\ (wf_World (Handlers.add_birthday args w).2
      /\ unshared (Handlers.add_birthday args w).2)
  /\ (Handlers.get_phone sty args w).2 = w
  /\ (Handlers.show_birthday sty args w).2 = w.
Proof.
  intros Hwf Hu.
  unfold Handlers.add_contact, Handlers.change_contact, Handlers.add_birthday,
    Handlers.get_phone, Handlers.show_birthday.
  rewrite !input_error_world.
  split; [|split; [|split; [|split]]].
  - unfold Handlers.add_contact_body.
    destruct args as [|n [|phone rest]]; [now split..|].
    destruct (dict_get n (book_data w)) as [r|] eqn:Hn.
    + destruct phone as [|c phone']; [now split|].
      pose proof (call_add_phone_wf w n r (c :: phone') Hwf Hu Hn) as H.
      destruct (call_method r _ w) as [res w2]. exact H.
    + destruct (create_record_spec n w Hwf Hn)
        as (Er & Hwf1 & Hu1 & Hn1 & _).
      destruct (create_record n w) as [r1 w1] eqn:Ecr. cbn [fst snd] in *.
      subst r1. specialize (Hu1 Hu).
      destruct phone as [|c phone']; [now split|].
      pose proof (call_add_phone_wf w1 n _ (c :: phone') Hwf1 Hu1 Hn1) as H.
      destruct (call_method _ _ w1) as [res w2]. exact H.
  - unfold Handlers.change_contact_body.
    destruct args as [|n [|phone rest]]; [now split..|].
    destruct (dict_get n (book_data w)) as [r|] eqn:Hn; [|now split].
    destruct (call_method_contact w n r
                (fun self h => (Return tt, remove_all_phones self, h))
                (Return tt) (remove_all_phones (get_record r w)) (phone_objs w)
                Hwf Hu Hn eq_refl ltac:(auto) ltac:(lia) ltac:(constructor))
      as (w1 & -> & Hwf1 & Hu1 & Hd1 & _).
    assert (dict_get n (book_data w1) = Some r) as Hn1 by (now rewrite Hd1).
    pose proof (call_add_phone_wf w1 n r phone Hwf1 Hu1 Hn1) as H.
    destruct (call_method r _ w1) as [res w2]. exact H.
  - unfold Handlers.add_birthday_body.
    destruct args as [|n [|d rest]]; [now split..|].
    destruct (dict_get n (book_data w)) as [r|] eqn:Hn.
    + destruct d as [|c d']; [now split|].
      destruct (call_add_birthday w n r (c :: d') Hwf Hu Hn)
        as (w' & -> & Hwf' & Hu' & _). now split.
    + destruct (create_record_spec n w Hwf Hn)
        as (Er & Hwf1 & Hu1 & Hn1 & _).
      destruct (create_record n w) as [r1 w1] eqn:Ecr. cbn [fst snd] in *.
      subst r1. specialize (Hu1 Hu).
      destruct d as [|c d']; [now split|].
      destruct (call_add_birthday w1 n _ (c :: d') Hwf1 Hu1 Hn1)
        as (w' & -> & Hwf' & Hu' & _). now split.
  - unfold Handlers.get_phone_body. destruct args as [|n rest]; [reflexivity|].
    now destruct (dict_get n (book_data w)).
  - unfold Handlers.show_birthday_body. destruct args as [|n rest]; [reflexivity|].
    destruct (dict_get n (book_data w)); [|reflexivity].
    now destruct (birthday _).
Qed.

(** X23: the handlers keep the book well formed: after [add_contact],
    [change_contact] and [add_birthday], on any arguments, the keys are
    unique, every name leads to a record, every phone of a record exists and
    no record is under two names; [get_phone] and [show_birthday] leave the
    book as it was. *)
Theorem handlers_keep_wf (sty : year_style) (args : list (list Z)) (w : World) :
  wf_World w -> unshared w ->
  (wf_World (Handlers.add_contact args w).2
   /\ unshared (Handlers.add_contact args w).2)
  /\ (wf_World (Handlers.change_contact args w).2
      /\ unshared (Handlers.change_contact args w).2)
  /\ (wf_World (Handlers.add_birthday args w).2
      /\ unshared (Handlers.add_birthday args w).2)
  /\ (Handlers.get_phone sty args w).2 = w
  /\ (Handlers.show_birthday sty args w).2 = w.
Proof. apply handlers_wf. Qed.

Lemma handlers_keep_wf_witness :
  wf_World (Handlers.add_contact [lit "Bob"; lit "1234567890"] empty_World).2.
Proof.
  exact (proj1 (proj1 (handlers_keep_wf YearUnpadded
                         [lit "Bob"; lit "1234567890"] empty_World
                         (proj1 wf_empty_World) (proj2 wf_empty_World)))).
Defined.

(** What [get_phone] returns for a contact that the book has. *)
Lemma get_phone_contact (sty : year_style) (n : list Z) (rest : list (list Z))
    (w : World) (n0 : list Z) (ps : list (option (list Z)))
    (b : option datetime) :
  contact n w = Some (n0, ps, b) ->
  Handlers.get_phone sty (n :: rest) w
  = (Return (Some (lit "Contact name: " ++ n0 ++ lit ", phones: "
                   ++ join (lit "; ") (map (default []) ps)
                   ++ lit ", birthday: "
                   ++ match b with
                      | Some d => strftime_dmY sty d
                      | None => lit "N/A"
                      end)), w).
Proof.
  unfold contact. destruct (dict_get n (book_data w)) as [r|] eqn:Hn;
    [|discriminate].
  intros [= <- <- <-].
  unfold Handlers.get_phone, input_error, Handlers.get_phone_body. rewrite Hn.
  unfold Record_str, phone_values. now rewrite map_map.
Qed.

(** X24: after [add_contact] has added a name that the book did not have
    with a phone that [Phone] accepts, [get_phone] for that name returns the
    text of the record: the name, the phone, and [N/A] for the birthday. *)
Theorem add_contact_get_phone (sty : year_style) (n phone : list Z)
    (rest : list (list Z)) (w : World) (v : list Z) :
  wf_World w -> unshared w -> contact n w = None ->
  Phone phone = Return v ->
  exists w',
    Handlers.add_contact (n :: phone :: rest) w
    = (Return (Some (lit "Contact added.")), w')
    /\ Handlers.get_phone sty [n] w'
       = (Return (Some (lit "Contact name: " ++ n ++ lit ", phones: "
                        ++ phone ++ lit ", birthday: N/A")), w').
Proof.
  intros Hwf Hu Hc HP.
  destruct (add_contact_returns n phone rest w v Hwf Hu HP)
    as (w' & E & _ & _ & Hc' & _).
  rewrite Hc in E, Hc'. exists w'. split; [exact E|].
  now rewrite (get_phone_contact sty n [] w' _ _ _ Hc').
Qed.

Lemma add_contact_get_phone_witness :
  exists w',
    Handlers.add_contact [lit "Bob"; lit "1234567890"] empty_World
    = (Return (Some (lit "Contact added.")), w')
    /\ Handlers.get_phone YearUnpadded [lit "Bob"] w'
       = (Return (Some (lit "Contact name: Bob, phones: 1234567890, birthday: N/A")),
          w').
Proof.
  exact (add_contact_get_phone YearUnpadded (lit "Bob") (lit "1234567890") []
           empty_World (lit "1234567890") (proj1 wf_empty_World)
           (proj2 wf_empty_World) eq_refl eq_refl).
Defined.


(** ** The command loop *)

Lemma split_from_word (t rest word : list Z) :
  Forall (fun c => is_space c = false) t ->
  split_from (t ++ rest) word = split_from rest (word ++ t).
Proof.
  intros Ht. revert word. induction Ht as [|c t Hc _ IH]; intros word.
  - now rewrite app_nil_r.
  - cbn [app split_from]. rewrite Hc, IH. now rewrite <- app_assoc.
Qed.

Lemma split_join_words (ts : list (list Z)) :
  Forall is_word ts -> split (join (lit " ") ts) = ts.
Proof.
  unfold split. induction 1 as [|t ts [Hne Ht] Hts IH]; [reflexivity|].
  destruct ts as [|t' ts].
  - cbn [join]. pose proof (split_from_word t [] [] Ht) as E.
    rewrite app_nil_r in E. rewrite E. cbn [app split_from].
    destruct t; [contradiction | reflexivity].
  - change (join (lit " ") (t :: t' :: ts))
      with (t ++ 32 :: join (lit " ") (t' :: ts)).
    rewrite split_from_word by exact Ht. cbn [app split_from].
    change (is_space 32) with true. cbv iota.
    destruct t; [contradiction|]. now rewrite IH.
Qed.

Lemma split_from_words (s word : list Z) :
  Forall (fun c => is_space c = false) word ->
  Forall is_word (split_from s word).
Proof.
  revert word. induction s as [|c s IH]; intros word Hw; cbn [split_from].
  - destruct word; [constructor|].
    constructor; [split; [discriminate | assumption] | constructor].
  - destruct (is_space c) eqn:Hc.
    + destruct word; [now apply IH|].
      constructor; [split; [discriminate | assumption] | now apply IH].
    + apply IH. apply Forall_app. split; [assumption | now repeat constructor].
Qed.

Lemma split_from_nil (s word : list Z) :
  split_from s word = [] <->
  word = [] /\ Forall (fun c => is_space c = true) s.
Proof.
  revert word. induction s as [|c s IH]; intros word; cbn [split_from].
  - destruct word; split; try discriminate; intuition (discriminate || constructor).
  - destruct (is_space c) eqn:Hc.
    + destruct word.
      * rewrite IH, Forall_cons. tauto.
      * split; [discriminate | intros [? _]; discriminate].
    + rewrite IH, Forall_cons. split.
      * intros [H _]. now destruct word.
      * intros [_ [H _]]. congruence.
Qed.

Lemma lstrip_word (t : list Z) :
  Forall (fun c => is_space c = false) t -> lstrip t = t.
Proof. destruct 1 as [|c t Hc _]; cbn [lstrip]; [reflexivity | now rewrite Hc]. Qed.

Lemma strip_word (t : list Z) : is_word t -> strip t = t.
Proof.
  intros [_ Ht]. unfold strip. rewrite (lstrip_word t Ht).
  rewrite lstrip_word; [apply rev_involutive|].
  apply Forall_forall. intros c Hc. rewrite Forall_forall in Ht. apply Ht.
  now apply list_elem_of_In, in_rev, list_elem_of_In.
Qed.

Section Loop_parse.
Variable unicode_lower : list Z -> list Z.

(** What [parse_input] returns in terms of [split]: stripping a word of
    [split] changes nothing. *)
Lemma parse_input_split (s : list Z) :
  parse_input unicode_lower s
  = match split s with
    | cmd :: args => Return (lower unicode_lower cmd, args)
    | [] => Raise (unpack_error 1 0)
    end
  /\ Forall is_word (split s).
Proof.
  assert (Forall is_word (split s)) as Hw
    by (apply split_from_words; constructor).
  split; [|exact Hw]. unfold parse_input.
  destruct (split s) as [|cmd args]; [reflexivity|].
  apply Forall_cons in Hw as [Hc _]. now rewrite strip_word.
Qed.

Lemma parse_input_raises (s : list Z) :
  (exists e, parse_input unicode_lower s = Raise e)
  <-> Forall (fun c => is_space c = true) s.
Proof.
  destruct (parse_input_split s) as [-> _]. unfold split.
  pose proof (split_from_nil s []) as H.
  destruct (split_from s []) as [|cmd args].
  - split; [intros _; now apply H | intros _; eexists; reflexivity].
  - split; [intros [e He]; discriminate He|].
    intros Hb. assert (cmd :: args = []) by (apply H; auto). discriminate.
Qed.

(** X25: [parse_input] raises exactly on the lines that hold no word, the
    empty line and the lines of blanks: the unpacking of the command word
    fails with a [ValueError], which [main] does not catch. *)
Theorem parse_input_blank (s : list Z) :
  ((exists e, parse_input unicode_lower s = Raise e)
   <-> Forall (fun c => is_space c = true) s)
  /\ (forall e, parse_input unicode_lower s = Raise e -> e = unpack_error 1 0).
Proof.
  split; [apply parse_input_raises|].
  intros e. unfold parse_input. destruct (split s); congruence.
Qed.

(** X26: on a line made of words separated by single spaces, with a command
    word in ASCII, [parse_input] returns the command word in lower case and
    the other words as they are, in order. *)
Theorem parse_input_words (cmd : list Z) (args : list (list Z)) :
  Forall is_word (cmd :: args) ->
  Forall (fun c => is_ascii c = true) cmd ->
  parse_input unicode_lower (join (lit " ") (cmd :: args))
  = Return (map ascii_lower cmd, args).
Proof.
  intros Hw Ha. destruct (parse_input_split (join (lit " ") (cmd :: args))) as [-> _].
  rewrite (split_join_words _ Hw). unfold lower.
  assert (forallb is_ascii cmd = true) as ->; [|reflexivity].
  apply forallb_forall. intros c Hc. rewrite Forall_forall in Ha.
  apply Ha. now apply list_elem_of_In.
Qed.

End Loop_parse.

Lemma parse_input_blank_witness :
  exists e, parse_input (fun s => s) (lit "   ") = Raise e.
Proof.
  apply (proj2 (proj1 (parse_input_blank (fun s => s) (lit "   ")))).
  repeat constructor.
Defined.

Lemma parse_input_words_witness :
  parse_input (fun s => s) (lit "ADD Bob 1234567890")
  = Return (lit "add", [lit "Bob"; lit "1234567890"]).
Proof.
  apply (parse_input_words (fun s => s) (lit "ADD")
           [lit "Bob"; lit "1234567890"]).
  - repeat constructor; discriminate.
  - repeat constructor.
Defined.









Section Loop_steps.
Variable unicode_lower : list Z -> list Z.


(** What a turn of the loop does to the book. *)
Lemma main_step_world (sty : year_style) (today : datetime) (w : World)
    (user_input : list Z) :
  wf_World w -> unshared w ->
  match main_step unicode_lower sty today w user_input with
  | Continue _ w' =>
      wf_World w' /\ unshared w'
      /\ (forall command args,
            parse_input unicode_lower user_input = Return (command, args) ->
            command <> lit "add" -> command <> lit "change" ->
            command <> lit "add-birthday" -> w' = w)
  | Exit out saved => saved = w /\ out = [Print (lit "Good bye!")]
  | Crash _ _ w' => wf_World w' /\ unshared w'
  end.
Proof.
  intros Hwf Hu. unfold main_step.
  destruct (parse_input unicode_lower user_input) as [[command args]|e0] eqn:HP;
    [|now split].
  pose proof (handlers_wf sty args w Hwf Hu)
    as ((Ha1 & Ha2) & (Hc1 & Hc2) & (Hb1 & Hb2) & Hg & Hs).
  assert (forall r : result (option (list Z)) * World,
            wf_World r.2 -> unshared r.2 ->
            (command <> lit "add" -> command <> lit "change" ->
             command <> lit "add-birthday" -> r.2 = w) ->
            match print_result r with
            | Continue _ w' =>
                wf_World w' /\ unshared w'
                /\ (forall command' args',
                      Return (command, args) = Return (command', args') ->
                      command' <> lit "add" -> command' <> lit "change" ->
                      command' <> lit "add-birthday" -> w' = w)
            | Exit out saved => saved = w /\ out = [Print (lit "Good bye!")]
            | Crash _ _ w' => wf_World w' /\ unshared w'
            end) as Hprint.
  { intros [[m|e] w2] H1 H2 H3; cbn [print_result snd] in *; [|now split].
    split; [exact H1|]. split; [exact H2|]. intros c' a' [= <- <-]. exact H3. }
  repeat (destruct (decide _) as [?|?]).
  - now split.
  - split; [exact Hwf|]. split; [exact Hu | reflexivity].
  - apply Hprint; [assumption..|]. intros; contradiction.
  - apply Hprint; [assumption..|]. intros; contradiction.
  - apply Hprint; rewrite ?Hg; auto.
  - split; [exact Hwf|]. split; [exact Hu | reflexivity].
  - apply Hprint; [assumption..|]. intros; contradiction.
  - apply Hprint; rewrite ?Hs; auto.
  - destruct (Handlers.birthdays sty today w); [|now split].
    split; [exact Hwf|]. split; [exact Hu | reflexivity].
  - split; [exact Hwf|]. split; [exact Hu | reflexivity].
Qed.


Lemma main_loop_wf (sty : year_style) (inputs : list (list Z * datetime))
    (w : World) :
  wf_World w -> unshared w ->
  match main_loop unicode_lower sty inputs w with
  | Stopped _ w' | Waiting _ w' => wf_World w' /\ unshared w'
  | Crashed _ _ => True
  end.
Proof.
  revert w. induction inputs as [|[line today] inputs IH]; intros w Hwf Hu;
    cbn [main_loop]; [now split|].
  pose proof (main_step_world sty today w line Hwf Hu) as Hs.
  destruct (main_step unicode_lower sty today w line) as [out w'|out w'|out e w'].
  - destruct Hs as (Hwf' & Hu' & _). specialize (IH w' Hwf' Hu').
    now destruct (main_loop unicode_lower sty inputs w').
  - destruct Hs as [-> _]. cbn. now split.
  - exact I.
Qed.

(** X29: every book that [main] saves is well formed. If the book that
    [load_data] returns is well formed and has no shared record, so is the
    book that a run saves at [close] or [exit], and the book of a run that
    waits for its next line. *)
Theorem main_saves_wf (sty : year_style) (loaded : World)
    (inputs : list (list Z * datetime)) :
  wf_World loaded -> unshared loaded ->
  match main unicode_lower sty loaded inputs with
  | Stopped _ w' | Waiting _ w' => wf_World w' /\ unshared w'
  | Crashed _ _ => True
  end.
Proof.
  intros Hwf Hu. unfold main.
  pose proof (main_loop_wf sty inputs loaded Hwf Hu) as H.
  now destruct (main_loop unicode_lower sty inputs loaded).
Qed.

(** X30: the loop reads nothing after it has ended. Once a run has been
    stopped by [close] or [exit], or ended by an exception, the lines that
    follow make no difference: nothing more is printed and the saved book
    is the same. *)
Theorem main_ignores_rest (sty : year_style) (loaded : World)
    (inputs more : list (list Z * datetime)) :
  (forall out w, main unicode_lower sty loaded inputs <> Waiting out w) ->
  main unicode_lower sty loaded (inputs ++ more)
  = main unicode_lower sty loaded inputs.
Proof.
  unfold main. intros Hend.
  assert (forall out w,
            main_loop unicode_lower sty inputs loaded <> Waiting out w) as Hend'.
  { intros out w E.
    apply (Hend ([Print (lit "Welcome to the assistant bot!")] ++ out) w).
    now rewrite E. }
  f_equal. clear Hend. revert loaded Hend'.
  induction inputs as [|[line today] inputs IH]; intros w Hend.
  - exfalso. eapply Hend. reflexivity.
  - change (((line, today) :: inputs) ++ more)
      with ((line, today) :: (inputs ++ more)).
    cbn [main_loop] in *.
    destruct (main_step unicode_lower sty today w line) as [out w'|out w'|out e w'];
      [|reflexivity..].
    f_equal. apply IH. intros out' w0 E.
    eapply Hend. rewrite E. reflexivity.
Qed.

End Loop_steps.



Lemma main_saves_wf_witness :
  let inputs := [(lit "add Bob 1234567890", mk_datetime 2024 6 10 10 0 0 0);
                 (lit "close", mk_datetime 2024 6 10 10 1 0 0)] in
  exists out saved,
    main (fun s => s) YearUnpadded empty_World inputs = Stopped out saved
    /\ wf_World saved
    /\ contact (lit "Bob") saved
       = Some (lit "Bob", [Some (lit "1234567890")], None).
Proof.
  intros inputs.
  pose proof (main_saves_wf (fun s => s) YearUnpadded empty_World inputs
                (proj1 wf_empty_World) (proj2 wf_empty_World)) as H.
  destruct (main _ _ _ _) as [out saved|out e|out w] eqn:E;
    try discriminate E.
  exists out, saved. split; [reflexivity|]. split; [exact (proj1 H)|].
  injection E as _ <-. reflexivity.
Defined.

Lemma main_ignores_rest_witness :
  let t := mk_datetime 2024 6 10 10 0 0 0 in
  main (fun s => s) YearUnpadded empty_World
    ([(lit "exit", t)] ++ [(lit "add Bob 1234567890", t)])
  = main (fun s => s) YearUnpadded empty_World [(lit "exit", t)].
Proof.
  intros t.
  apply (main_ignores_rest (fun s => s) YearUnpadded empty_World
           [(lit "exit", t)] [(lit "add Bob 1234567890", t)]).
  intros out w. discriminate.
Defined.
